(** * The TinaCMS content database: index maintenance and queries

    A shallow embedding of [packages/@tinacms/graphql/src/database/index.ts]:
    the [Database] class with its three memoized caches, the write path
    ([put], [delete], [stringifyFile]), the read path ([get]), the index
    definition builder ([getIndexDefinitions]), the query planner and its
    iteration and hydration phases ([query]), and the status-reporting
    wrapper of the long-running operations.

    JavaScript objects used as dictionaries are finite maps ([gmap]);
    [async] methods mutate the [Database] instance in place and may throw,
    so they become computations in a state-and-exception monad in which
    the state survives a throw. *)

From stdpp Require Import gmap strings list pretty.
From Stdlib Require Import ZArith Ascii String.

Local Open Scope string_scope.
Local Open Scope list_scope.
Local Open Scope nat_scope.

(** ** JavaScript values and thrown values *)

(** Document payloads are heterogeneous maps from field names to values. *)
#[warnings="-register-all"] Inductive value :=
  | VUndef
  | VNull
  | VBool (b : bool)
  | VNum (n : Z)
  | VStr (s : string)
  | VList (l : list value)
  | VMap (l : list (string * value)).

Abbreviation payload := (gmap string value).

(** Modelled from the spec: the sublevels of the absent [level] module
    hold their values JSON-encoded, so what is read back is the JSON form
    of what was written: a property holding [undefined] is left out, and
    [undefined] inside an array becomes [null]. *)
Fixpoint jsonValue (v : value) : option value :=
  match v with
  | VUndef => None
  | VList l => Some (VList (map (λ x, default VNull (jsonValue x)) l))
  | VMap l =>
      Some (VMap ((fix properties (l : list (string * value)) :=
                     match l with
                     | [] => []
                     | (k, x) :: rest =>
                         match jsonValue x with
                         | Some y => (k, y) :: properties rest
                         | None => properties rest
                         end
                     end) l))
  | _ => Some v
  end.

Definition jsonPayload (p : payload) : payload := omap jsonValue p.

(** [obj[key]]: reading an absent property yields [undefined]. *)
Definition js_get (o : payload) (k : string) : value :=
  default VUndef (o !! k).

(** [hasOwnProperty(obj, prop)] *)
Definition hasOwnProperty (o : payload) (k : string) : bool :=
  bool_decide (is_Some (o !! k)).

(** Whatever a [throw] statement can raise.  Every constructor except
    [NonError] is an instance of the JavaScript [Error] class. *)
Inductive thrown :=
  | JsError (msg : string)
  | TypeError (msg : string)
  | GraphQLError (msg : string)
  | LevelError (code : string)
  | TinaFetchError (msg : string) (originalError : thrown)
                   (file : string) (collection : option string)
  | TinaQueryError (originalError : thrown) (file : string)
                   (collection : string)
  | NonError (v : value).

(** [error instanceof Error] *)
Definition instanceofError (e : thrown) : bool :=
  match e with
  | NonError _ => false
  | _ => true
  end.

(** [e.code], where present *)
Definition error_code (e : thrown) : option string :=
  match e with
  | LevelError c => Some c
  | _ => None
  end.

Inductive Res (A : Type) :=
  | Ok (a : A)
  | Throw (e : thrown).
Arguments Ok {A} a.
Arguments Throw {A} e.

(** ** The state-and-exception monad

    Mutation is in place, so the state reached when an exception is
    raised is kept. *)
Definition ST (S A : Type) : Type := S → Res A * S.

Definition ret {S A} (a : A) : ST S A := λ s, (Ok a, s).
Definition throw {S A} (e : thrown) : ST S A := λ s, (Throw e, s).
Definition bind {S A B} (m : ST S A) (k : A → ST S B) : ST S B :=
  λ s, match m s with
       | (Ok a, s') => k a s'
       | (Throw e, s') => (Throw e, s')
       end.
Definition try_catch {S A} (m : ST S A) (h : thrown → ST S A) : ST S A :=
  λ s, match m s with
       | (Ok a, s') => (Ok a, s')
       | (Throw e, s') => h e s'
       end.
Definition lift {S A} (r : Res A) : ST S A := λ s, (r, s).
Definition gets {S A} (f : S → A) : ST S A := λ s, (Ok (f s), s).
Definition modify {S} (f : S → S) : ST S unit := λ s, (Ok tt, f s).

Declare Scope st_scope.
Delimit Scope st_scope with st.
Notation "x <- m ;; k" := (bind m (λ x, k))
  (at level 100, m at next level, right associativity) : st_scope.
Notation "m ;;; k" := (bind m (λ _, k))
  (at level 100, right associativity) : st_scope.
Local Open Scope st_scope.

(** ** Strings *)

(** [s.includes(sub)] *)
Fixpoint string_includes (sub s : string) : bool :=
  String.prefix sub s ||
  match s with
  | EmptyString => false
  | String _ s' => string_includes sub s'
  end.

(** [s.replace(pat, '')] with a string pattern: the first occurrence only. *)
Fixpoint remove_first (pat s : string) : string :=
  if String.prefix pat s then
    String.substring (String.length pat) (String.length s - String.length pat) s
  else
    match s with
    | EmptyString => EmptyString
    | String c s' => String c (remove_first pat s')
    end.

(** [s.replace(/^\/|\/$/g, '')]: one leading and one trailing slash go. *)
Definition strip_leading_slash (s : string) : string :=
  match s with
  | String "/"%char s' => s'
  | _ => s
  end.

Fixpoint strip_trailing_slash (s : string) : string :=
  match s with
  | EmptyString => EmptyString
  | String "/"%char EmptyString => EmptyString
  | String c s' => String c (strip_trailing_slash s')
  end.

Definition strip_slashes (s : string) : string :=
  strip_trailing_slash (strip_leading_slash s).

(** Truthiness of an optional string ([undefined] and [''] are falsy). *)
Definition truthy_string (s : option string) : bool :=
  match s with
  | Some s => negb (String.eqb s "")
  | None => false
  end.

(** Truthiness of an optional number ([undefined] and [0] are falsy). *)
Definition truthy_number (n : option Z) : bool :=
  match n with
  | Some n => negb (n =? 0)%Z
  | None => false
  end.

(** ** The schema *)

Inductive FieldType :=
  | TString | TNumber | TBoolean | TDatetime | TReference | TObject | TRichText.

#[global] Instance FieldType_eq_dec : EqDecision FieldType.
Proof. solve_decision. Defined.

Record TinaField := {
  field_name : string;
  field_type : FieldType;
  field_indexed : option bool;
  field_isBody : bool;
}.

Record Template := {
  template_namespace : list string;
  template_fields : list TinaField;
}.

Record IndexDecl := {
  index_name : string;
  index_fields : list string;
}.

Record Collection := {
  col_name : string;
  col_path : string;
  col_format : option string;
  col_fields : option (list TinaField);
  col_templates : option (list Template);
  col_indexes : option (list IndexDecl);
}.

(** The stored schema ([TinaCloudSchemaBase]) and the enriched schema
    object built from it ([TinaSchema]). *)
Record TinaCloudSchemaBase := { base_collections : list Collection }.
Record TinaSchema := { schema_collections : list Collection }.

Definition getCollections (s : TinaSchema) : list Collection :=
  schema_collections s.

Inductive TemplateInfo :=
  | ObjectTemplate (template : Template)
  | UnionTemplates (templates : list Template).

(** [lastItem(arr)] *)
Definition lastItem (l : list string) : option string := last l.

(** ** Index definitions *)

Record Pad := { fillString : string; maxLength : nat }.

Record IndexField := {
  ix_name : string;
  ix_type : option FieldType;
  ix_pad : option Pad;
}.

Record IndexDefinition := { fields : list IndexField }.

Abbreviation IndexTable := (gmap string (gmap string IndexDefinition)).

(** Modelled from the spec: the constants of the absent [datalayer] and
    [level] modules.  The default sort key is [__filepath__], numbers are
    padded to width 4, the root sublevel is [~]. *)
Definition DEFAULT_COLLECTION_SORT_KEY : string := "__filepath__".
Definition DEFAULT_NUMERIC_LPAD : nat := 4.
Definition ROOT_PREFIX : string := "~".

Definition SYSTEM_FILES : list string := ["_schema"; "_graphql"; "_lookup"].

Definition GENERATED_FOLDER : string := ".tina/__generated__".

(** ** The key-value store *)

Record LookupMapType := {
  lookup_type : string;
  lookup_resolveType : string;
}.

(** What a primary-sublevel or index-sublevel key can hold.  The marker
    value of an index entry is the empty object, [RDoc ∅]. *)
Inductive record :=
  | RDoc (p : payload)
  | RSchema (s : TinaCloudSchemaBase)
  | RLookup (l : gmap string LookupMapType)
  | RGraphQL (doc : string).

(** The fields of a stored object read as a document payload. *)
Definition record_payload (r : record) : payload :=
  match r with
  | RDoc p => p
  | _ => ∅
  end.

(** A sublevel is named by the chain of nested prefixes. *)
Abbreviation sublevel := (list string).
Abbreviation Level := (gmap (list string * string) record).

Definition rootSublevel : sublevel := [ROOT_PREFIX].

Inductive BatchOp :=
  | PutOp (sub : sublevel) (key : string) (val : record)
  | DelOp (sub : sublevel) (key : string).

Definition op_target (op : BatchOp) : list string * string :=
  match op with
  | PutOp sub key _ => (sub, key)
  | DelOp sub key => (sub, key)
  end.

(** A stored value, as it is read back. *)
Definition jsonRecord (r : record) : record :=
  match r with
  | RDoc p => RDoc (jsonPayload p)
  | _ => r
  end.

Definition applyOp (l : Level) (op : BatchOp) : Level :=
  match op with
  | PutOp sub key val => <[(sub, key) := jsonRecord val]> l
  | DelOp sub key => delete (sub, key) l
  end.

(** Modelled from the spec: [level.batch(ops)] of the absent [level]
    module applies the operations in order, as one atomic step; each
    operation names its target sublevel, and a put stores the JSON form
    of its value. *)
Definition batch (l : Level) (ops : list BatchOp) : Level :=
  fold_left applyOp ops l.

(** ** Filters and query options *)

(** Modelled from the spec: the filter-chain grammar of the absent
    [datalayer] module, binary and ternary clauses over a named field. *)
Inductive FilterOperator := OpEq | OpStartsWith | OpGt | OpGte | OpLt | OpLte.

Inductive Filter :=
  | BinaryFilter (pathExpression : string) (operator : FilterOperator)
                 (rightOperand : value)
  | TernaryFilter (pathExpression : string) (leftOperand : value)
                  (rightOperand : value).

Record FilterSuffixes := {
  left_suffix : option string;
  right_suffix : option string;
}.

Record QueryOptions := {
  q_collection : string;
  q_filterChain : option (list Filter);
  q_sort : option string;
  q_first : option Z;
  q_last : option Z;
  q_after : option string;
  q_before : option string;
}.

(** The range handed to the store's iterator. *)
Record IteratorOptions := {
  it_gt : option string;
  it_gte : option string;
  it_lt : option string;
  it_lte : option string;
  it_reverse : bool;
}.

(** What the residual filter is applied to: the named groups of the
    decoded key, or a record of the store. *)
Inductive FilterSubject :=
  | SubjectGroups (groups : gmap string string)
  | SubjectRecord (r : record).

(** ** External collaborators

    Functions the database imports from modules outside this file: path
    helpers, the schema tools, the file-format encoder, the key codec and
    filter compiler of the data layer, the iterator of the store, and
    the built-in regular-expression engine.  The development is
    parametric in them. *)
Class Externals := {
  (** [normalizePath] of [./util] *)
  normalizePath : string → string;
  (** [path.extname] *)
  extname : string → string;
  (** [atob], [btoa] of [../util] *)
  atob : string → string;
  btoa : string → string;
  (** [createSchema] of [../schema/createSchema] *)
  createSchema : TinaCloudSchemaBase → Res TinaSchema;
  (** methods of [TinaSchema] *)
  getCollectionByFullPath : TinaSchema → string → Res (option Collection);
  getTemplatesForCollectable :
    TinaSchema → option Collection → Res TemplateInfo;
  getCollectionAndTemplateByFullPath :
    TinaSchema → string → option string → Res (Collection * Template);
  (** [stringifyFile], [parseFile] of [./util] *)
  stringifyFileFormat : payload → string → bool → Res string;
  parseFile : string → string → Res payload;
  (** the single reserved byte separating the components of an index key *)
  INDEX_KEY_FIELD_SEPARATOR : ascii;
  (** the per-field encoder of the key codec *)
  encodeFieldValue : IndexField → value → string;
  (** whether the key codec has a key for a document that holds the
      fields of an index definition *)
  hasIndexValue : IndexDefinition → payload → bool;
  (** [coerceFilterChainOperands], [makeFilterSuffixes], [makeFilter] *)
  coerceFilterChainOperands : option (list Filter) → list Filter;
  makeFilterSuffixes : list Filter → IndexDefinition → option FilterSuffixes;
  makeFilter : list Filter → FilterSubject → bool;
  (** [sublevel.iterator(query)]: the entries of a sublevel in range, in
      iteration order *)
  levelIterator : Level → sublevel → IteratorOptions → list (string * record);
  (** [new RegExp(pattern).exec(key)] for the key pattern of an index
      definition: the named groups on a match *)
  valuesRegexExec : option IndexDefinition → string → option (gmap string string);
  (** [bridge.glob] *)
  bridgeGlob : gmap string string → string → string → list string;
  (** [JSON.parse] of the generated lookup file *)
  parseLookup : string → Res (gmap string LookupMapType);
}.

(** ** The database instance *)

Record Database := {
  bridge : gmap string string;
  level : Level;
  tinaSchema : option TinaSchema;
  collectionIndexDefinitions : option IndexTable;
  _lookup : option (gmap string LookupMapType);
}.

Abbreviation M := (ST Database).

Definition set_bridge (f : gmap string string → gmap string string)
    (db : Database) : Database :=
  {| bridge := f (bridge db); level := level db; tinaSchema := tinaSchema db;
     collectionIndexDefinitions := collectionIndexDefinitions db;
     _lookup := _lookup db |}.

Definition set_level (f : Level → Level) (db : Database) : Database :=
  {| bridge := bridge db; level := f (level db); tinaSchema := tinaSchema db;
     collectionIndexDefinitions := collectionIndexDefinitions db;
     _lookup := _lookup db |}.

Definition set_tinaSchema (s : option TinaSchema) (db : Database) : Database :=
  {| bridge := bridge db; level := level db; tinaSchema := s;
     collectionIndexDefinitions := collectionIndexDefinitions db;
     _lookup := _lookup db |}.

Definition set_collectionIndexDefinitions (t : option IndexTable)
    (db : Database) : Database :=
  {| bridge := bridge db; level := level db; tinaSchema := tinaSchema db;
     collectionIndexDefinitions := t; _lookup := _lookup db |}.

Definition set_lookup (l : option (gmap string LookupMapType))
    (db : Database) : Database :=
  {| bridge := bridge db; level := level db; tinaSchema := tinaSchema db;
     collectionIndexDefinitions := collectionIndexDefinitions db;
     _lookup := l |}.

(** Modelled from the spec: [sublevel.get(key)] of the absent [level]
    module; a missing key raises the [LEVEL_NOT_FOUND] sentinel. *)
Definition level_get (sub : sublevel) (key : string) : M record :=
  λ db, match level db !! (sub, key) with
        | Some r => (Ok r, db)
        | None => (Throw (LevelError "LEVEL_NOT_FOUND"), db)
        end.

Definition level_batch (ops : list BatchOp) : M unit :=
  modify (set_level (λ l, batch l ops)).

Definition level_put (sub : sublevel) (key : string) (val : record) : M unit :=
  modify (set_level (<[(sub, key) := jsonRecord val]>)).

Definition level_clear : M unit := modify (set_level (λ _, ∅)).

(** Modelled from the spec: the bridge of the absent [./bridge] module
    reads, writes and removes file contents by path; reading a file that
    does not exist fails. *)
Definition bridge_get (path : string) : M string :=
  λ db, match bridge db !! path with
        | Some c => (Ok c, db)
        | None => (Throw (JsError ("ENOENT " +:+ path)), db)
        end.

Definition bridge_put (path contents : string) : M unit :=
  modify (set_bridge (<[path := contents]>)).

Definition bridge_delete (path : string) : M unit :=
  modify (set_bridge (delete path)).

Section Database.
Context `{Externals}.

(** ** Schema cache *)

Definition generatedPath (file : string) : string :=
  normalizePath (GENERATED_FOLDER +:+ "/" +:+ file).

Definition getTinaSchema : M TinaCloudSchemaBase :=
  r <- level_get rootSublevel (generatedPath "_schema.json") ;;
  match r with
  | RSchema s => ret s
  | _ => throw (TypeError "stored schema record is not a schema")
  end.

Definition getSchema : M TinaSchema :=
  cached <- gets tinaSchema ;;
  match cached with
  | Some s => ret s
  | None =>
      schema <- getTinaSchema ;;
      s <- lift (createSchema schema) ;;
      modify (set_tinaSchema (Some s)) ;;;
      ret s
  end.

Definition getLookup (returnType : string) : M (option LookupMapType) :=
  cached <- gets _lookup ;;
  l <- match cached with
       | Some l => ret l
       | None =>
           r <- level_get rootSublevel (generatedPath "_lookup.json") ;;
           let l := match r with RLookup l => l | _ => ∅ end in
           modify (set_lookup (Some l)) ;;;
           ret l
       end ;;
  ret (l !! returnType).

(** [clearCache]: the two assignments of the source. *)
Definition clearCache (db : Database) : Database :=
  set_lookup None (set_tinaSchema None db).

Definition collectionForPath (filepath : string) : M (option Collection) :=
  s <- getSchema ;;
  lift (getCollectionByFullPath s filepath).

(** ** The index-definition builder *)

(** The skip test of the field loop: a field is passed over when
    [indexed] is given and false, or when its type is [object]. *)
Definition skipsField (f : TinaField) : bool :=
  bool_decide (field_indexed f = Some false) ||
  bool_decide (field_type f = TObject).

Definition singleColumnIndex (f : TinaField) : IndexDefinition :=
  {| fields :=
       [ {| ix_name := field_name f;
            ix_type := Some (field_type f);
            ix_pad := if decide (field_type f = TNumber)
                      then Some {| fillString := "0";
                                   maxLength := DEFAULT_NUMERIC_LPAD |}
                      else None |} ] |}.

Definition addFieldIndex (defs : gmap string IndexDefinition) (f : TinaField)
    : gmap string IndexDefinition :=
  if skipsField f then defs
  else <[field_name f := singleColumnIndex f]> defs.

(** [index.fields.map(...)]: each named field resolves to its declared
    type; [collection.fields.find] on a collection without fields is a
    [TypeError] as soon as the callback runs. *)
Definition compositeIndex (fs : option (list TinaField)) (index : IndexDecl)
    : Res IndexDefinition :=
  match index_fields index, fs with
  | [], _ => Ok {| fields := [] |}
  | _ :: _, None =>
      Throw (TypeError "Cannot read properties of undefined (reading 'find')")
  | names, Some fs =>
      Ok {| fields :=
              map (λ n, {| ix_name := n;
                           ix_type := field_type <$>
                             find (λ f, String.eqb n (field_name f)) fs;
                           ix_pad := None |}) names |}
  end.

Fixpoint addCompositeIndexes (fs : option (list TinaField))
    (indexes : list IndexDecl) (defs : gmap string IndexDefinition)
    : Res (gmap string IndexDefinition) :=
  match indexes with
  | [] => Ok defs
  | index :: rest =>
      match compositeIndex fs index with
      | Ok d => addCompositeIndexes fs rest (<[index_name index := d]> defs)
      | Throw e => Throw e
      end
  end.

(** The body of the loop over collections: the table of one collection. *)
Definition collectionIndexes (collection : Collection)
    : Res (gmap string IndexDefinition) :=
  let indexDefinitions : gmap string IndexDefinition :=
    {[ DEFAULT_COLLECTION_SORT_KEY := {| fields := [] |} ]} in
  let indexDefinitions :=
    match col_fields collection with
    | Some fs => fold_left addFieldIndex fs indexDefinitions
    | None => indexDefinitions
    end in
  match col_indexes collection with
  | Some indexes =>
      addCompositeIndexes (col_fields collection) indexes indexDefinitions
  | None => Ok indexDefinitions
  end.

(** The loop assigns into the memoized table after each collection, so a
    failure at one collection leaves the earlier ones in place. *)
Fixpoint indexCollections (collections : list Collection) : M unit :=
  match collections with
  | [] => ret tt
  | collection :: rest =>
      defs <- lift (collectionIndexes collection) ;;
      modify (λ db, set_collectionIndexDefinitions
                      (Some (<[col_name collection := defs]>
                               (default ∅ (collectionIndexDefinitions db)))) db) ;;;
      indexCollections rest
  end.

Definition getIndexDefinitions : M (option IndexTable) :=
  cached <- gets collectionIndexDefinitions ;;
  match cached with
  | None =>
      schema <- getSchema ;;
      indexCollections (getCollections schema)
  | Some _ => ret tt
  end ;;;
  gets collectionIndexDefinitions.

(** ** The key codec *)

Definition SEP : string := String INDEX_KEY_FIELD_SEPARATOR EmptyString.

(** Modelled from the spec: the composite key of the absent [datalayer]
    module, [f1 SEP f2 SEP ... fN SEP path]; with no fields it is the
    path alone. *)
Definition indexKey (def : IndexDefinition) (data : payload) (path : string)
    : string :=
  foldr (λ f k, encodeFieldValue f (js_get data (ix_name f)) +:+ SEP +:+ k)
        path (fields def).

Inductive OpType := OpPutType | OpDelType.

Definition indexOp (opType : OpType) (sub : sublevel) (key : string) : BatchOp :=
  match opType with
  | OpPutType => PutOp sub key (RDoc ∅)
  | OpDelType => DelOp sub key
  end.

(** Whether a document has a property for every field of an index
    definition. *)
Definition holdsFields (def : IndexDefinition) (data : payload) : bool :=
  forallb (λ f, bool_decide (is_Some (data !! ix_name f))) (fields def).

(** Modelled from the spec: the key of a document in one index of its
    collection.  The default index sorts by the primary key alone, so
    its key is the path; under any other sort key the key is the
    composite key of the values of the index fields, for a document
    that has all of them and for which the codec has a key, and there
    is none otherwise. *)
Definition indexEntry (sort : string) (def : IndexDefinition) (data : payload)
    (path : string) : option string :=
  if String.eqb sort DEFAULT_COLLECTION_SORT_KEY then Some path
  else if holdsFields def data && hasIndexValue def data
       then Some (indexKey def data path)
       else None.

(** Modelled from the spec: [makeIndexOpsForDocument] of the absent
    [datalayer] module.  A document of a collection gets one operation
    for each index definition of the collection under which it has a
    key, on the sublevel [<collection>/<sortKey>], with the empty marker
    as value; a collection without index definitions is an error (the
    [IndexError] of the specification, a [TypeError] of the run time);
    a document outside any collection bypasses indexing. *)
Definition makeIndexOpsForDocument (filepath : string)
    (collection : option string)
    (indexDefinitions : option (gmap string IndexDefinition))
    (data : payload) (opType : OpType) : Res (list BatchOp) :=
  if truthy_string collection then
    match indexDefinitions with
    | Some defs =>
        Ok (omap (λ sd : string * IndexDefinition,
                    indexOp opType [default "" collection; sd.1]
                      <$> indexEntry sd.1 sd.2 data filepath)
                 (map_to_list defs))
    | None => Throw (TypeError "Cannot convert undefined or null to object")
    end
  else Ok [].

(** The path component of an index key: what follows the last
    separator (the whole key when there is none). *)
Fixpoint has_separator (k : string) : bool :=
  match k with
  | EmptyString => false
  | String c k' => Ascii.eqb c INDEX_KEY_FIELD_SEPARATOR || has_separator k'
  end.

Fixpoint keyPath (k : string) : string :=
  match k with
  | EmptyString => EmptyString
  | String c k' =>
      if has_separator k' then keyPath k'
      else if Ascii.eqb c INDEX_KEY_FIELD_SEPARATOR then k'
      else k
  end.

(** ** Reading and writing documents *)

Definition isBodyField (f : TinaField) : bool :=
  (bool_decide (field_type f = TString) ||
   bool_decide (field_type f = TRichText)) && field_isBody f.

Definition isSystemFile (filepath : string) : bool :=
  bool_decide (filepath ∈ SYSTEM_FILES).

(** [lastItem(t.namespace) === data._template] *)
Definition templateMatches (data : payload) (t : Template) : bool :=
  match lastItem (template_namespace t), js_get data "_template" with
  | Some n, VStr s => String.eqb n s
  | None, VUndef => true
  | _, _ => false
  end.

Definition isMarkdownFormat (format : option string) : bool :=
  match format with
  | Some f => String.eqb f "md" || String.eqb f "mdx"
  | None => false
  end.

Definition isMarkdownExtension (extension : string) : bool :=
  String.eqb extension ".md" || String.eqb extension ".mdx".

Record StringifiedFile := {
  stringifiedFile : string;
  sf_payload : payload;
  keepTemplateKey : bool;
}.

Definition isUnion (info : TemplateInfo) : bool :=
  match info with
  | UnionTemplates _ => true
  | ObjectTemplate _ => false
  end.

(** The template a document is written with: the single template of an
    object collection, or the template of a union collection that the
    document's [_template] names. *)
Definition resolveTemplate (templateInfo : TemplateInfo) (data : payload)
    : Res Template :=
  match
    match templateInfo with
    | ObjectTemplate t => Ok (Some t)
    | UnionTemplates ts =>
        if hasOwnProperty data "_template"
        then Ok (find (templateMatches data) ts)
        else Throw (JsError
          "Expected _template to be provided for document in an ambiguous collection")
    end
  with
  | Ok (Some t) => Ok t
  | Ok None => Throw (JsError "Unable to determine template")
  | Throw e => Throw e
  end.

(** The stored payload: for a markdown format with a body field, every
    entry but the body field is copied and the body goes under [$_body]. *)
Definition writePayload (template : Template) (collection : Collection)
    (data : payload) : payload :=
  match find isBodyField (template_fields template) with
  | Some field =>
      if isMarkdownFormat (col_format collection) then
        <["$_body" := js_get data (field_name field)]>
          (delete (field_name field) data)
      else data
  | None => data
  end.

Definition stringifyFile (filepath : string) (data : payload)
    : M StringifiedFile :=
  if isSystemFile filepath then
    throw (JsError ("Unexpected put for config file " +:+ filepath))
  else
    tinaSchema <- getSchema ;;
    collection <- lift (getCollectionByFullPath tinaSchema filepath) ;;
    templateInfo <- lift (getTemplatesForCollectable tinaSchema collection) ;;
    template <- lift (resolveTemplate templateInfo data) ;;
    match collection with
    | None =>
        throw (TypeError "Cannot read properties of undefined (reading 'format')")
    | Some collection =>
        let payload := writePayload template collection data in
        let extension := extname filepath in
        stringified <-
          lift (stringifyFileFormat payload extension (isUnion templateInfo)) ;;
        ret {| stringifiedFile := stringified;
               sf_payload := payload;
               keepTemplateKey := isUnion templateInfo |}
    end.

Definition optStr (s : option string) : value :=
  match s with
  | Some s => VStr s
  | None => VUndef
  end.

(** [typeof contentObject._template === 'string' ? contentObject._template
    : undefined] *)
Definition templateNameOf (contentObject : payload) : option string :=
  match contentObject !! "_template" with
  | Some (VStr t) => Some t
  | _ => None
  end.

(** The body field is moved back under its declared name when the
    extension is markdown-like and the record carries [$_body]. *)
Definition readData (template : Template) (extension : string)
    (contentObject : payload) : payload :=
  match find isBodyField (template_fields template) with
  | Some field =>
      if isMarkdownExtension extension then
        match contentObject !! "$_body" with
        | Some body =>
            <[field_name field := body]> (delete "$_body" contentObject)
        | None => contentObject
        end
      else contentObject
  | None => contentObject
  end.

(** The object literal returned by [get]: the data spread first, then
    the five added properties. *)
Definition withMetadata (collection : Collection) (template : Template)
    (filepath : string) (data : payload) : payload :=
  <["_id" := VStr filepath]>
  (<["_relativePath" :=
       VStr (strip_slashes (remove_first (col_path collection) filepath))]>
  (<["_template" := optStr (lastItem (template_namespace template))]>
  (<["_keepTemplateKey" := VBool (bool_decide (is_Some (col_templates collection)))]>
  (<["_collection" := VStr (col_name collection)]> data)))).

(** A stored object is never falsy, so the [Unable to find record] branch
    is only reached through the store's own not-found error. *)
Definition get (filepath : string) : M payload :=
  if isSystemFile filepath then
    throw (JsError ("Unexpected get for config file " +:+ filepath))
  else
    tinaSchema <- getSchema ;;
    let extension := extname filepath in
    r <- level_get rootSublevel (normalizePath filepath) ;;
    let contentObject := record_payload r in
    let templateName := templateNameOf contentObject in
    ct <- lift (getCollectionAndTemplateByFullPath tinaSchema filepath templateName) ;;
    let collection := ct.1 in
    let template := ct.2 in
    ret (withMetadata collection template filepath
           (readData template extension contentObject)).

(** The read-before-write of the write path: a missing record is not an
    error, anything else is re-thrown. *)
Definition getExisting (key : string) : M (option record) :=
  try_catch (r <- level_get rootSublevel key ;; ret (Some r))
            (λ e, if bool_decide (error_code e = Some "LEVEL_NOT_FOUND")
                  then ret None else throw e).

Definition lookupDefinitions (collection : option string)
    : M (option (gmap string IndexDefinition)) :=
  if truthy_string collection then
    indexDefinitions <- getIndexDefinitions ;;
    ret (indexDefinitions ≫= (.!! default "" collection))
  else ret None.

Definition put (filepath : string) (data : payload)
    (collection : option string) : M bool :=
  try_catch
    (if isSystemFile filepath then
       throw (JsError ("Unexpected put for config file " +:+ filepath))
     else
       collectionIndexDefinitions <- lookupDefinitions collection ;;
       let normalizedPath := normalizePath filepath in
       sf <- stringifyFile filepath data ;;
       bridge_put normalizedPath (stringifiedFile sf) ;;;
       putOps <-
         lift (makeIndexOpsForDocument normalizedPath collection
                 collectionIndexDefinitions (sf_payload sf) OpPutType) ;;
       existingItem <- getExisting normalizedPath ;;
       delOps <-
         match existingItem with
         | Some item =>
             lift (makeIndexOpsForDocument normalizedPath collection
                     collectionIndexDefinitions (record_payload item)
                     OpDelType)
         | None => ret []
         end ;;
       level_batch (delOps ++ putOps ++
                    [PutOp rootSublevel normalizedPath (RDoc (sf_payload sf))]) ;;;
       ret true)
    (λ error,
       throw (TinaFetchError ("Error in PUT for " +:+ filepath) error
                             filepath collection)).

(** [delete] of the source (the name is taken by the map operation). *)
Definition delete_ (filepath : string) : M unit :=
  collection <- collectionForPath filepath ;;
  collectionIndexDefinitions <-
    match collection with
    | Some c =>
        indexDefinitions <- getIndexDefinitions ;;
        ret (indexDefinitions ≫= (.!! col_name c))
    | None => ret None
    end ;;
  let itemKey := normalizePath filepath in
  item <- level_get rootSublevel itemKey ;;
  match collection with
  | None =>
      throw (TypeError "Cannot read properties of undefined (reading 'name')")
  | Some c =>
      delOps <-
        lift (makeIndexOpsForDocument filepath (Some (col_name c))
                collectionIndexDefinitions (record_payload item) OpDelType) ;;
      level_batch (delOps ++ [DelOp rootSublevel itemKey])
  end ;;;
  bridge_delete (normalizePath filepath).

End Database.

(** ** Queries *)

Record Edge := { cursor : string; edge_path : string }.

Record ScanState := {
  edges : list Edge;
  startKey : string;
  endKey : string;
  hasPreviousPage : bool;
  hasNextPage : bool;
}.

Record PageInfo := {
  pi_hasPreviousPage : bool;
  pi_hasNextPage : bool;
  startCursor : string;
  endCursor : string;
}.

Record QueryResult (N : Type) := {
  result_edges : list (N * string);
  pageInfo : PageInfo;
}.
Arguments result_edges {N} _.
Arguments pageInfo {N} _.

(** The byte [\xFF] closing a prefix range. *)
Definition MAX_BYTE : string := String "255"%char EmptyString.

Section Query.
Context `{Externals}.

(** [let limit = 50; if (first) limit = first; else if (last) limit = last] *)
Definition queryLimit (first last : option Z) : Z :=
  let limit := 50%Z in
  if truthy_number first then default limit first
  else if truthy_number last then default limit last
  else limit.

(** [{ reverse: !!last }], then the cursor branch. *)
Definition cursorBounds (after before : option string) (last : option Z)
    : IteratorOptions :=
  let reverse := truthy_number last in
  if truthy_string after then
    {| it_gt := atob <$> after; it_gte := None; it_lt := None; it_lte := None;
       it_reverse := reverse |}
  else if truthy_string before then
    {| it_gt := None; it_gte := None; it_lt := atob <$> before; it_lte := None;
       it_reverse := reverse |}
  else
    {| it_gt := None; it_gte := None; it_lt := None; it_lte := None;
       it_reverse := reverse |}.

(** The two fallback assignments that follow index resolution. *)
Definition fallbackBounds (filterSuffixes : option FilterSuffixes)
    (query : IteratorOptions) : IteratorOptions :=
  let query :=
    if negb (truthy_string (it_gt query)) && negb (truthy_string (it_gte query))
    then
      {| it_gt := it_gt query;
         it_gte := Some (let l := filterSuffixes ≫= left_suffix in
                         if truthy_string l then default "" l else "");
         it_lt := it_lt query; it_lte := it_lte query;
         it_reverse := it_reverse query |}
    else query in
  if negb (truthy_string (it_lt query)) && negb (truthy_string (it_lte query))
  then
    {| it_gt := it_gt query; it_gte := it_gte query; it_lt := it_lt query;
       it_lte := Some (let r := filterSuffixes ≫= right_suffix in
                       if truthy_string r then default "" r +:+ MAX_BYTE
                       else MAX_BYTE);
       it_reverse := it_reverse query |}
  else query.

Definition queryBounds (queryOptions : QueryOptions)
    (filterSuffixes : option FilterSuffixes) : IteratorOptions :=
  fallbackBounds filterSuffixes
    (cursorBounds (q_after queryOptions) (q_before queryOptions)
                  (q_last queryOptions)).

Definition initialScan : ScanState :=
  {| edges := []; startKey := ""; endKey := ""; hasPreviousPage := false;
     hasNextPage := false |}.

(** [limit !== -1 && edges.length >= limit] *)
Definition limitReached (limit : Z) (st : ScanState) : bool :=
  negb (limit =? -1)%Z && (limit <=? Z.of_nat (List.length (edges st)))%Z.

Definition stopAtLimit (reverse : bool) (st : ScanState) : ScanState :=
  if reverse then
    {| edges := edges st; startKey := startKey st; endKey := endKey st;
       hasPreviousPage := true; hasNextPage := hasNextPage st |}
  else
    {| edges := edges st; startKey := startKey st; endKey := endKey st;
       hasPreviousPage := hasPreviousPage st; hasNextPage := true |}.

Definition appendEdge (key filepath : string) (st : ScanState) : ScanState :=
  {| edges := edges st ++ [ {| cursor := key; edge_path := filepath |} ];
     startKey := if String.eqb (startKey st) "" then key else startKey st;
     endKey := key;
     hasPreviousPage := hasPreviousPage st;
     hasNextPage := hasNextPage st |}.

(** What the residual filter sees for a candidate: the decoded groups
    when the index produced filter suffixes, else the primary record
    (one point lookup), else the iterated value itself. *)
Definition filterSubject (indexDefinition : option IndexDefinition)
    (filterSuffixes : option FilterSuffixes) (groups : gmap string string)
    (filepath : string) (val : record) : M FilterSubject :=
  match filterSuffixes, indexDefinition with
  | Some _, _ => ret (SubjectGroups groups)
  | None, Some _ =>
      r <- level_get rootSublevel filepath ;; ret (SubjectRecord r)
  | None, None => ret (SubjectRecord val)
  end.

(** The [for await] loop over the iterator.  A key that does not match
    the pattern of the index definition is skipped; on a match the group
    count is fixed by the pattern, so the arity test adds nothing. *)
Fixpoint scan (indexDefinition : option IndexDefinition)
    (filterSuffixes : option FilterSuffixes) (filterChain : list Filter)
    (limit : Z) (reverse : bool) (items : list (string * record))
    (st : ScanState) : M ScanState :=
  match items with
  | [] => ret st
  | (key, val) :: rest =>
      match valuesRegexExec indexDefinition key with
      | None =>
          scan indexDefinition filterSuffixes filterChain limit reverse rest st
      | Some groups =>
          let filepath := default "" (groups !! "_filepath_") in
          subject <- filterSubject indexDefinition filterSuffixes groups
                                   filepath val ;;
          if negb (makeFilter filterChain subject) then
            scan indexDefinition filterSuffixes filterChain limit reverse rest st
          else if limitReached limit st then
            ret (stopAtLimit reverse st)
          else
            scan indexDefinition filterSuffixes filterChain limit reverse rest
                 (appendEdge key filepath st)
      end
  end.

Definition GRAPHQL_CONFIG_PATH : string := ".tina/__generated__/_graphql.json".

(** The callback handed to [sequential] for one edge. *)
Definition hydrateEdge {N} (hydrator : string → M N) (collection : string)
    (edge : Edge) : M (N * string) :=
  try_catch
    (node <- hydrator (edge_path edge) ;;
     ret (node, btoa (cursor edge)))
    (λ error,
       if instanceofError error &&
          negb (string_includes GRAPHQL_CONFIG_PATH (edge_path edge))
       then throw (TinaQueryError error (edge_path edge) collection)
       else throw error).

(** Modelled from the spec: [sequential] of the absent [../util] module
    maps the items through the callback one after the other. *)
Fixpoint sequential {A B} (items : list A) (callback : A → M B) : M (list B) :=
  match items with
  | [] => ret []
  | x :: rest =>
      y <- callback x ;;
      ys <- sequential rest callback ;;
      ret (y :: ys)
  end.

Definition query {N} (queryOptions : QueryOptions) (hydrator : string → M N)
    : M (QueryResult N) :=
  let sort := default DEFAULT_COLLECTION_SORT_KEY (q_sort queryOptions) in
  let collection := q_collection queryOptions in
  let limit := queryLimit (q_first queryOptions) (q_last queryOptions) in
  allIndexDefinitions <- getIndexDefinitions ;;
  match allIndexDefinitions ≫= (.!! collection) with
  | None =>
      throw (JsError ("No indexDefinitions for collection " +:+ collection))
  | Some indexDefinitions =>
      let filterChain := coerceFilterChainOperands (q_filterChain queryOptions) in
      let indexDefinition :=
        if truthy_string (Some sort) then indexDefinitions !! sort else None in
      let filterSuffixes := indexDefinition ≫= makeFilterSuffixes filterChain in
      let sub :=
        match indexDefinition with
        | Some _ => [collection; sort]
        | None => rootSublevel
        end in
      let bounds := queryBounds queryOptions filterSuffixes in
      lvl <- gets level ;;
      st <- scan indexDefinition filterSuffixes filterChain limit
                 (it_reverse bounds) (levelIterator lvl sub bounds)
                 initialScan ;;
      hydrated <- sequential (edges st) (hydrateEdge hydrator collection) ;;
      ret {| result_edges := hydrated;
             pageInfo := {| pi_hasPreviousPage := hasPreviousPage st;
                            pi_hasNextPage := hasNextPage st;
                            startCursor := btoa (startKey st);
                            endCursor := btoa (endKey st) |} |}
  end.

End Query.

(** ** Long-running operations and their status events *)

Inductive Status := inprogress | complete | failed.

Record IndexStatusEvent := {
  status : Status;
  error : option thrown;
}.

Definition inprogressEvent : IndexStatusEvent :=
  {| status := inprogress; error := None |}.
Definition completeEvent : IndexStatusEvent :=
  {| status := complete; error := None |}.
Definition failedEvent (e : thrown) : IndexStatusEvent :=
  {| status := failed; error := Some e |}.

(** A registered callback: it sees the database and may itself throw. *)
Abbreviation IndexStatusCallback := (IndexStatusEvent → M unit).

Definition defaultStatusCallback : IndexStatusCallback := λ _, ret tt.

(** To observe what is emitted, the database is paired with the list of
    events the callback has been invoked with, oldest first. *)
Abbreviation MW := (ST (Database * list IndexStatusEvent)).

Definition liftDb {A} (m : M A) : MW A :=
  λ w, match m w.1 with
       | (r, db') => (r, (db', w.2))
       end.

(** [await this.indexStatusCallback(event)] *)
Definition indexStatusCallback (cb : IndexStatusCallback)
    (event : IndexStatusEvent) : MW unit :=
  λ w, match cb event w.1 with
       | (r, db') => (r, (db', (w.2 ++ [event])%list))
       end.

(** [indexStatusCallbackWrapper].  The source's [fn] returns nothing and
    leaves its pending operations in a buffer captured by the closure;
    here the buffer is the result of [fn]. *)
Definition indexStatusCallbackWrapper {A} (cb : IndexStatusCallback)
    (fn : M A) : MW A :=
  indexStatusCallback cb inprogressEvent ;;;
  try_catch
    (a <- liftDb fn ;;
     indexStatusCallback cb completeEvent ;;;
     ret a)
    (λ error,
       indexStatusCallback cb (failedEvent error) ;;;
       throw error).

Section Indexing.
Context `{Externals}.

(** [while (operations.length >= threshold) batch(operations.splice(0, 25))];
    every round removes at least one operation, so [fuel] rounds suffice
    when [fuel] is the length of the buffer. *)
Fixpoint drain (fuel threshold : nat) (operations : list BatchOp)
    : M (list BatchOp) :=
  match fuel with
  | O => ret operations
  | S fuel' =>
      if decide (threshold ≤ List.length operations)%nat then
        level_batch (take 25 operations) ;;;
        drain fuel' threshold (drop 25 operations)
      else ret operations
  end.

Definition enqueueOps (operations ops : list BatchOp) : M (list BatchOp) :=
  let operations := operations ++ ops in
  drain (List.length operations) 25 operations.

Definition flushOps (operations : list BatchOp) : M unit :=
  drain (List.length operations) 1 operations ;;; ret tt.

(** The groups of [partitionPathsByCollection], in insertion order of the
    collection names: the last collection object seen under a name, and
    the paths under it. *)
Fixpoint partitionAdd (c : Collection) (documentPath : string)
    (groups : list (string * (Collection * list string)))
    : list (string * (Collection * list string)) :=
  match groups with
  | [] => [(col_name c, (c, [documentPath]))]
  | (n, (c0, paths)) :: rest =>
      if String.eqb n (col_name c)
      then (n, (c, paths ++ [documentPath])) :: rest
      else (n, (c0, paths)) :: partitionAdd c documentPath rest
  end.

Fixpoint partitionPathsByCollection (documentPaths : list string)
    (groups : list (string * (Collection * list string)))
    (nonCollectionPaths : list string)
    : M (list (string * (Collection * list string)) * list string) :=
  match documentPaths with
  | [] => ret (groups, nonCollectionPaths)
  | documentPath :: rest =>
      collection <- collectionForPath documentPath ;;
      match collection with
      | Some c =>
          partitionPathsByCollection rest (partitionAdd c documentPath groups)
                                     nonCollectionPaths
      | None =>
          partitionPathsByCollection rest groups
                                     (nonCollectionPaths ++ [documentPath])
      end
  end.

Definition requireDefinitions (collection : option Collection)
    : M (option (gmap string IndexDefinition)) :=
  match collection with
  | Some c =>
      indexDefinitions <- getIndexDefinitions ;;
      match indexDefinitions ≫= (.!! col_name c) with
      | Some defs => ret (Some defs)
      | None =>
          throw (JsError ("No indexDefinitions for collection " +:+ col_name c))
      end
  | None => ret None
  end.

Definition seedDocument (collection : option Collection)
    (collectionIndexDefinitions : option (gmap string IndexDefinition))
    (filepath : string) (operations : list BatchOp) : M (list BatchOp) :=
  try_catch
    (dataString <- bridge_get (normalizePath filepath) ;;
     data <- lift (parseFile dataString (extname filepath)) ;;
     let normalizedPath := normalizePath filepath in
     putOps <-
       lift (makeIndexOpsForDocument normalizedPath (col_name <$> collection)
               collectionIndexDefinitions data OpPutType) ;;
     enqueueOps operations
       (putOps ++ [PutOp rootSublevel normalizedPath (RDoc data)]))
    (λ error,
       match collection with
       | Some c =>
           throw (TinaFetchError ("Unable to seed " +:+ filepath) error filepath
                                 (Some (col_name c)))
       | None =>
           throw (TypeError "Cannot read properties of undefined (reading 'name')")
       end).

Fixpoint seedDocuments (collection : option Collection)
    (collectionIndexDefinitions : option (gmap string IndexDefinition))
    (documentPaths : list string) (operations : list BatchOp)
    : M (list BatchOp) :=
  match documentPaths with
  | [] => ret operations
  | filepath :: rest =>
      operations <- seedDocument collection collectionIndexDefinitions
                                 filepath operations ;;
      seedDocuments collection collectionIndexDefinitions rest operations
  end.

Definition _indexContent (documentPaths : list string)
    (operations : list BatchOp) (collection : option Collection)
    : M (list BatchOp) :=
  collectionIndexDefinitions <- requireDefinitions collection ;;
  seedDocuments collection collectionIndexDefinitions documentPaths operations.

Definition unseedDocument (collection : option Collection)
    (collectionIndexDefinitions : option (gmap string IndexDefinition))
    (filepath : string) (operations : list BatchOp) : M (list BatchOp) :=
  let itemKey := normalizePath filepath in
  item <- level_get rootSublevel itemKey ;;
  match collection with
  | Some c =>
      delOps <-
        lift (makeIndexOpsForDocument itemKey (Some (col_name c))
                collectionIndexDefinitions (record_payload item) OpDelType) ;;
      enqueueOps operations (delOps ++ [DelOp rootSublevel itemKey])
  | None =>
      throw (TypeError "Cannot read properties of null (reading 'name')")
  end.

Fixpoint unseedDocuments (collection : option Collection)
    (collectionIndexDefinitions : option (gmap string IndexDefinition))
    (documentPaths : list string) (operations : list BatchOp)
    : M (list BatchOp) :=
  match documentPaths with
  | [] => ret operations
  | filepath :: rest =>
      operations <- unseedDocument collection collectionIndexDefinitions
                                   filepath operations ;;
      unseedDocuments collection collectionIndexDefinitions rest operations
  end.

Definition _deleteIndexContent (documentPaths : list string)
    (operations : list BatchOp) (collection : option Collection)
    : M (list BatchOp) :=
  collectionIndexDefinitions <- requireDefinitions collection ;;
  unseedDocuments collection collectionIndexDefinitions documentPaths operations.

Fixpoint forGroups
    (step : list string → list BatchOp → option Collection → M (list BatchOp))
    (groups : list (string * (Collection * list string)))
    (operations : list BatchOp) : M (list BatchOp) :=
  match groups with
  | [] => ret operations
  | (_, (c, paths)) :: rest =>
      operations <- step paths operations (Some c) ;;
      forGroups step rest operations
  end.

(** The function handed to the wrapper by [deleteContentByPaths]. *)
Definition deleteContentByPathsBody (documentPaths : list string)
    : M (list BatchOp) :=
  parts <- partitionPathsByCollection documentPaths [] [] ;;
  operations <- forGroups _deleteIndexContent parts.1 [] ;;
  _deleteIndexContent parts.2 operations None.

(** The function handed to the wrapper by [indexContentByPaths]. *)
Definition indexContentByPathsBody (documentPaths : list string)
    : M (list BatchOp) :=
  parts <- partitionPathsByCollection documentPaths [] [] ;;
  operations <- forGroups _indexContent parts.1 [] ;;
  _indexContent parts.2 operations None.

Fixpoint indexCollectionsContent (collections : list Collection)
    (operations : list BatchOp) : M (list BatchOp) :=
  match collections with
  | [] => ret operations
  | collection :: rest =>
      br <- gets bridge ;;
      let documentPaths :=
        bridgeGlob br (normalizePath (col_path collection))
                   (if truthy_string (col_format collection)
                    then default "" (col_format collection) else "md") in
      operations <- _indexContent documentPaths operations (Some collection) ;;
      indexCollectionsContent rest operations
  end.

Definition _indexAllContent : M unit :=
  tinaSchema <- getSchema ;;
  operations <- indexCollectionsContent (getCollections tinaSchema) [] ;;
  flushOps operations.

(** The function handed to the wrapper by [indexContent]. *)
Definition indexContentBody (graphQLSchema : string)
    (schema : TinaCloudSchemaBase) : M (list BatchOp) :=
  contents <- bridge_get (generatedPath "_lookup.json") ;;
  lookup <- lift (parseLookup contents) ;;
  level_clear ;;;
  level_put rootSublevel (generatedPath "_graphql.json") (RGraphQL graphQLSchema) ;;;
  level_put rootSublevel (generatedPath "_schema.json") (RSchema schema) ;;;
  level_put rootSublevel (generatedPath "_lookup.json") (RLookup lookup) ;;;
  _indexAllContent ;;;
  ret [].

Inductive LongRunning :=
  | IndexContent (graphQLSchema : string) (schema : TinaCloudSchemaBase)
  | IndexContentByPaths (documentPaths : list string)
  | DeleteContentByPaths (documentPaths : list string).

(** What each operation hands to [indexStatusCallbackWrapper]. *)
Definition operationBody (op : LongRunning) : M (list BatchOp) :=
  match op with
  | IndexContent g s => indexContentBody g s
  | IndexContentByPaths paths => indexContentByPathsBody paths
  | DeleteContentByPaths paths => deleteContentByPathsBody paths
  end.

(** The operation as a whole: the wrapped body, then the flush of what
    is left in the buffer (nothing, for [indexContent]). *)
Definition runOperation (cb : IndexStatusCallback) (op : LongRunning)
    : MW unit :=
  operations <- indexStatusCallbackWrapper cb (operationBody op) ;;
  liftDb (flushOps operations).

Definition indexContent cb g s := runOperation cb (IndexContent g s).
Definition indexContentByPaths cb paths := runOperation cb (IndexContentByPaths paths).
Definition deleteContentByPaths cb paths := runOperation cb (DeleteContentByPaths paths).

End Indexing.

(** ** The remaining operations of the database *)

Section RemainingOperations.
Context `{Externals}.

(** [addPendingDocument]: the write path of [put], with the collection
    resolved from the path, no system-file test of its own and no
    wrapping of errors. *)
Definition addPendingDocument (filepath : string) (data : payload) : M unit :=
  sf <- stringifyFile filepath data ;;
  collection <- collectionForPath filepath ;;
  collectionIndexDefinitions <-
    match collection with
    | Some c =>
        indexDefinitions <- getIndexDefinitions ;;
        ret (indexDefinitions ≫= (.!! col_name c))
    | None => ret None
    end ;;
  let normalizedPath := normalizePath filepath in
  bridge_put normalizedPath (stringifiedFile sf) ;;;
  putOps <-
    lift (makeIndexOpsForDocument normalizedPath (col_name <$> collection)
            collectionIndexDefinitions (sf_payload sf) OpPutType) ;;
  existingItem <- getExisting normalizedPath ;;
  delOps <-
    match existingItem with
    | Some item =>
        lift (makeIndexOpsForDocument normalizedPath (col_name <$> collection)
                collectionIndexDefinitions (record_payload item) OpDelType)
    | None => ret []
    end ;;
  level_batch (delOps ++ putOps ++
               [PutOp rootSublevel normalizedPath (RDoc (sf_payload sf))]).

(** [flush]: the file form of the stored document. *)
Definition flush (filepath : string) : M string :=
  data <- get filepath ;;
  sf <- stringifyFile filepath data ;;
  ret (stringifiedFile sf).

(** [documentExists]: whatever [get] throws is swallowed. *)
Definition documentExists (fullpath : string) : M bool :=
  try_catch (get fullpath ;;; ret true) (λ _, ret false).

(** [getGraphQLSchema]: the stored record, as it is. *)
Definition getGraphQLSchema : M record :=
  level_get rootSublevel (generatedPath "_graphql.json").

End RemainingOperations.

(** What only the config-file operations need from outside: whether the
    bridge builds, and the JSON encoder and decoder. *)
Class ConfigExternals := {
  (** [bridge.supportsBuilding()] *)
  supportsBuilding : bool;
  (** [JSON.stringify] of the lookup map, the GraphQL document and the
      schema *)
  stringifyLookup : gmap string LookupMapType → string;
  stringifyGraphQL : string → string;
  stringifySchema : TinaCloudSchemaBase → string;
  (** [JSON.parse] of the GraphQL document *)
  parseGraphQL : string → Res string;
}.

Section ConfigFiles.
Context `{Externals} `{ConfigExternals}.

(** Modelled from the spec: [bridge.putConfig] of the absent [./bridge]
    module is the variant of [put] for generated config records, and
    does something only when the bridge supports building. *)
Definition bridge_putConfig (path contents : string) : M unit :=
  if supportsBuilding then bridge_put path contents else ret tt.

Definition getGraphQLSchemaFromBridge : M string :=
  _graphql <- bridge_get (generatedPath "_graphql.json") ;;
  lift (parseGraphQL _graphql).

Definition putConfigFiles (graphQLSchema : string)
    (schema : TinaCloudSchemaBase) : M unit :=
  if supportsBuilding then
    bridge_putConfig (generatedPath "_graphql.json")
                     (stringifyGraphQL graphQLSchema) ;;;
    bridge_putConfig (generatedPath "_schema.json") (stringifySchema schema)
  else ret tt.

(** [addToLookupMap]: a lookup file that cannot be read or parsed counts
    as the empty map. *)
Definition addToLookupMap (lookup : LookupMapType) : M unit :=
  lookupMap <-
    try_catch
      (contents <- bridge_get (generatedPath "_lookup.json") ;;
       lift (parseLookup contents))
      (λ _, ret ∅) ;;
  let updatedLookup := <[lookup_type lookup := lookup]> lookupMap in
  bridge_putConfig (generatedPath "_lookup.json")
                   (stringifyLookup updatedLookup).

End ConfigFiles.


(** ** Notions used in the statements *)

Section Notions.
Context `{Externals}.

(** The limit as the specification words it: [first ?? last ?? 50]. *)
Definition nullishLimit (first last : option Z) : Z :=
  match first with
  | Some f => f
  | None => default 50%Z last
  end.

(** What one iterated item contributes when nothing cuts the scan
    short: the edge of a key that matches and passes the residual filter. *)
Definition candidate (indexDefinition : option IndexDefinition)
    (filterSuffixes : option FilterSuffixes) (filterChain : list Filter)
    (db : Database) (item : string * record) : Res (option Edge) :=
  match valuesRegexExec indexDefinition item.1 with
  | None => Ok None
  | Some groups =>
      let filepath := default "" (groups !! "_filepath_") in
      match filterSubject indexDefinition filterSuffixes groups filepath
                          item.2 db with
      | (Ok subject, _) =>
          Ok (if makeFilter filterChain subject
              then Some {| cursor := item.1; edge_path := filepath |}
              else None)
      | (Throw e, _) => Throw e
      end
  end.

(** The edge contributed by an item, when there is one. *)
Definition candidateEdge (indexDefinition : option IndexDefinition)
    (filterSuffixes : option FilterSuffixes) (filterChain : list Filter)
    (db : Database) (item : string * record) : option Edge :=
  match candidate indexDefinition filterSuffixes filterChain db item with
  | Ok o => o
  | Throw _ => None
  end.

(** A callback that returns normally on every event. *)
Definition callbackReturns (cb : IndexStatusCallback) : Prop :=
  ∀ event db, (cb event db).1 = Ok tt.









(** The targets of the index operations of one document. *)
Definition indexTargets (c : string) (defs : gmap string IndexDefinition)
    (data : payload) (path : string) : list (list string * string) :=
  omap (λ sd : string * IndexDefinition,
          (λ k, ([c; sd.1], k)) <$> indexEntry sd.1 sd.2 data path)
       (map_to_list defs).

(** What an index operation leaves under its key. *)
Definition opOutcome (opType : OpType) : option record :=
  match opType with
  | OpPutType => Some (RDoc ∅)
  | OpDelType => None
  end.

(** The index entries of a path are those of its primary record: in
    every defined index of the collection, the keys whose trailing path
    component is the path are exactly the key of the stored record in
    that index, if it has one, and there is none when no record is
    stored. *)
Definition indexedExactly (db : Database) (c : string)
    (defs : gmap string IndexDefinition) (path : string) : Prop :=
  ∀ sort def, defs !! sort = Some def → ∀ k,
    (is_Some (level db !! ([c; sort], k)) ∧ keyPath k = path)
    ↔ ∃ r, level db !! (rootSublevel, path) = Some r
           ∧ indexEntry sort def (record_payload r) path = Some k.

(** The key codec reads a stored payload as it reads the payload that
    was written: under every index of the table, a payload and its JSON
    form have the same key, or both none. *)
Definition keysSurviveStorage (defs : gmap string IndexDefinition) : Prop :=
  ∀ sort def data path, defs !! sort = Some def →
    indexEntry sort def (jsonPayload data) path
    = indexEntry sort def data path.

(** The payload [stringifyFile] stores for a document: what
    [writePayload] makes of it for the collection of the path and the
    template the schema tools resolve, under the schema the database
    has loaded. *)
Definition storedPayload (filepath : string) (d : payload) (db : Database)
    (stored : payload) : Prop :=
  ∃ s c info t,
    tinaSchema db = Some s
    ∧ getCollectionByFullPath s filepath = Ok (Some c)
    ∧ getTemplatesForCollectable s (Some c) = Ok info
    ∧ resolveTemplate info d = Ok t
    ∧ stored = writePayload t c d.

(** The properties [get] adds to what it returns. *)
Definition metadataKeys : list string :=
  ["_collection"; "_keepTemplateKey"; "_template"; "_relativePath"; "_id"].

(** The metadata the specification lists. *)
Definition specMetadataKeys : list string :=
  ["_collection"; "_template"; "_relativePath"; "_id"].

(** The schema tools resolve a document on read as they did on write:
    the template found by [get] has the body field of the template the
    document was written with, and a document of a markdown-format
    collection with a body field carries a markdown extension. *)
Definition readsAsWritten (filepath : string) (d : payload) (db : Database)
    : Prop :=
  ∀ s c info t c' t',
    tinaSchema db = Some s →
    getCollectionByFullPath s filepath = Ok (Some c) →
    getTemplatesForCollectable s (Some c) = Ok info →
    resolveTemplate info d = Ok t →
    getCollectionAndTemplateByFullPath s filepath
      (templateNameOf (writePayload t c d)) = Ok (c', t') →
    find isBodyField (template_fields t') = find isBodyField (template_fields t)
    ∧ (is_Some (find isBodyField (template_fields t)) →
       isMarkdownFormat (col_format c) = true →
       isMarkdownExtension (extname filepath) = true).

(** What the scan loop of [query] keeps true of its state, whatever the
    limit. *)
Definition pageState (limit : Z) (reverse : bool) (st : ScanState) : Prop :=
  (limit = (-1)%Z ∨ List.length (edges st) ≤ Z.to_nat limit)
  ∧ Forall (λ e, cursor e ≠ "") (edges st)
  ∧ startKey st = default "" (head (cursor <$> edges st))
  ∧ endKey st = default "" (last (cursor <$> edges st))
  ∧ (hasNextPage st = true → reverse = false)
  ∧ (hasPreviousPage st = true → reverse = true).

End Notions.

(** ** A concrete instance of the collaborators

    Used to run the model on concrete inputs: paths are normalized by
    turning backslashes into slashes, cursors are kept as they are, the
    schema tools resolve a collection by path prefix, strings encode as
    themselves and booleans as one digit, and a document has a key in an
    index when it holds a value for each of its fields. *)
Module Demo.

Fixpoint backslashesToSlashes (s : string) : string :=
  match s with
  | EmptyString => EmptyString
  | String c s' =>
      String (if Ascii.eqb c "\"%char then "/"%char else c)
             (backslashesToSlashes s')
  end.

Fixpoint lastDotSuffix (s : string) (acc : string) : string :=
  match s with
  | EmptyString => acc
  | String c s' =>
      lastDotSuffix s' (if Ascii.eqb c "."%char then s else acc)
  end.

Definition collectionOfPath (s : TinaSchema) (filepath : string)
    : option Collection :=
  find (λ c, String.prefix (col_path c) (backslashesToSlashes filepath))
       (schema_collections s).

Definition templatesOf (c : option Collection) : Res TemplateInfo :=
  match c with
  | Some c =>
      match col_fields c, col_templates c with
      | Some fs, _ =>
          Ok (ObjectTemplate {| template_namespace := [col_name c];
                                template_fields := fs |})
      | None, Some ts => Ok (UnionTemplates ts)
      | None, None => Throw (JsError "collection has neither fields nor templates")
      end
  | None => Throw (TypeError "Cannot read properties of undefined")
  end.

Definition collectionAndTemplate (s : TinaSchema) (filepath : string)
    (templateName : option string) : Res (Collection * Template) :=
  match collectionOfPath s filepath with
  | None => Throw (JsError ("Unable to find collection for " +:+ filepath))
  | Some c =>
      match templatesOf (Some c) with
      | Ok (ObjectTemplate t) => Ok (c, t)
      | Ok (UnionTemplates ts) =>
          match find (λ t, bool_decide (lastItem (template_namespace t) = templateName)) ts with
          | Some t => Ok (c, t)
          | None => Throw (JsError "Unable to determine template")
          end
      | Throw e => Throw e
      end
  end.

(** [s.padStart(maxLength, fillString)], for a one-character fill. *)
Definition padStart (pad : option Pad) (s : string) : string :=
  match pad with
  | Some p =>
      String.concat ""
        (replicate (maxLength p - String.length s) (fillString p)) +:+ s
  | None => s
  end.

Definition encodeDemo (f : IndexField) (v : value) : string :=
  match v with
  | VStr s => s
  | VBool true => "1"
  | VBool false => "0"
  | VNum n => padStart (ix_pad f) (pretty n)
  | _ => ""
  end.

Definition separator : ascii := "029"%char.

(** A document has a key under an index definition when it holds a
    value other than [undefined] and [null] for every field of the
    definition, and the encoded values joined by the separator are not
    the empty string. *)
Definition presentValue (v : option value) : bool :=
  match v with
  | None | Some VUndef | Some VNull => false
  | Some _ => true
  end.

Definition hasDemoValue (def : IndexDefinition) (data : payload) : bool :=
  forallb (λ f, presentValue (data !! ix_name f)) (fields def)
  && negb (String.eqb
             (String.concat (String separator "")
                (map (λ f, encodeDemo f (js_get data (ix_name f)))
                     (fields def)))
             "").

Fixpoint afterLastSeparator (k acc : string) : string :=
  match k with
  | EmptyString => acc
  | String c k' =>
      afterLastSeparator k' (if Ascii.eqb c separator then k' else acc)
  end.

#[export] Instance demoExternals : Externals := {|
  normalizePath := backslashesToSlashes;
  extname := λ p, lastDotSuffix p "";
  atob := λ s, s;
  btoa := λ s, s;
  createSchema := λ b, Ok {| schema_collections := base_collections b |};
  getCollectionByFullPath := λ s p, Ok (collectionOfPath s p);
  getTemplatesForCollectable := λ _ c, templatesOf c;
  getCollectionAndTemplateByFullPath := collectionAndTemplate;
  stringifyFileFormat := λ _ _ _, Ok "";
  parseFile := λ _ _, Ok ∅;
  INDEX_KEY_FIELD_SEPARATOR := separator;
  encodeFieldValue := encodeDemo;
  hasIndexValue := hasDemoValue;
  coerceFilterChainOperands := default [];
  makeFilterSuffixes := λ _ _, None;
  makeFilter := λ _ _, true;
  levelIterator := λ l sub _,
    omap (λ e : (list string * string) * record,
            if decide (e.1.1 = sub) then Some (e.1.2, e.2) else None)
         (map_to_list l);
  valuesRegexExec := λ _ k,
    if String.eqb k "" then None
    else Some {[ "_filepath_" := afterLastSeparator k k ]};
  bridgeGlob := λ _ _ _, [];
  parseLookup := λ _, Ok ∅;
|}.

(** A collection [posts] of markdown documents with a numeric [rank], a
    [title] and a rich-text [body]. *)
Definition rankField : TinaField :=
  {| field_name := "rank"; field_type := TNumber; field_indexed := None;
     field_isBody := false |}.
Definition titleField : TinaField :=
  {| field_name := "title"; field_type := TString; field_indexed := None;
     field_isBody := false |}.
Definition bodyField : TinaField :=
  {| field_name := "body"; field_type := TRichText; field_indexed := None;
     field_isBody := true |}.

Definition posts : Collection :=
  {| col_name := "posts"; col_path := "content/posts"; col_format := Some "md";
     col_fields := Some [rankField; titleField; bodyField];
     col_templates := None; col_indexes := None |}.

Definition demoSchema : TinaCloudSchemaBase := {| base_collections := [posts] |}.

Definition schemaKey : list string * string :=
  (rootSublevel, ".tina/__generated__/_schema.json").

(** A freshly indexed, empty store holding only the schema record. *)
Definition emptyDb : Database :=
  {| bridge := ∅;
     level := {[ schemaKey := RSchema demoSchema ]};
     tinaSchema := None;
     collectionIndexDefinitions := None;
     _lookup := None |}.

End Demo.

(** ** Concrete inputs *)

Import Demo.

(** The index definition stored for a sort key of a collection. *)
Definition definitionAt (db : Database) (collection sort : string)
    : option IndexDefinition :=
  match (getIndexDefinitions db).1 with
  | Ok (Some table) => table !! collection ≫= (.!! sort)
  | _ => None
  end.

(** A property of a returned document. *)
Definition propertyOf (r : Res payload) (k : string) : option value :=
  match r with
  | Ok doc => doc !! k
  | Throw _ => None
  end.

Definition pA : string := "content/posts/a.md".

Definition dOld : payload := {[ "rank" := VNum 2; "body" := VStr "old" ]}.

Definition dNew : payload := {[ "rank" := VNum 9; "body" := VStr "new" ]}.

(** The store after [put(pA, dOld)], and after a further [put(pA, dNew)]. *)
Definition dbOld : Database := (put pA dOld (Some "posts") emptyDb).2.

Definition dbNew : Database := (put pA dNew (Some "posts") dbOld).2.

Definition postsTable : gmap string (gmap string IndexDefinition) :=
  default ∅ (collectionIndexDefinitions dbOld).

Definition postsDefinitions : gmap string IndexDefinition :=
  default ∅ (postsTable !! "posts").

Definition pages : Collection :=
  {| col_name := "pages"; col_path := "content/pages"; col_format := Some "md";
     col_fields := Some [titleField]; col_templates := None;
     col_indexes := None |}.

Definition pagesSchema : TinaCloudSchemaBase := {| base_collections := [pages] |}.

(** The index definitions are built for the schema with [posts]; the
    stored schema is then replaced by one with [pages] only, and the
    caches are cleared. *)
Definition dbIndexed : Database := (getIndexDefinitions emptyDb).2.

Definition dbChanged : Database :=
  clearCache (set_level (<[schemaKey := RSchema pagesSchema]>) dbIndexed).

Definition dbFresh : Database :=
  set_level (<[schemaKey := RSchema pagesSchema]>) emptyDb.

(** A collection with two declared indexes, one of them under the name
    of a field. *)
Definition catalog : Collection :=
  {| col_name := "catalog"; col_path := "content/catalog";
     col_format := Some "json";
     col_fields := Some [rankField; titleField];
     col_templates := None;
     col_indexes :=
       Some [ {| index_name := "rank"; index_fields := ["title"; "rank"] |};
              {| index_name := "by-title"; index_fields := ["title"] |} ] |}.

Definition catalogSchema : TinaCloudSchemaBase :=
  {| base_collections := [posts; catalog] |}.

Definition dbCatalog : Database :=
  set_level (<[schemaKey := RSchema catalogSchema]>) emptyDb.

(** The keys held in a sublevel, in the order of the store. *)
Definition sublevelKeys (db : Database) (sub : list string) : list string :=
  omap (λ e : (list string * string) * record,
          if decide (e.1.1 = sub) then Some e.1.2 else None)
       (map_to_list (level db)).




(** A status callback that fails when told of completion. *)
Definition failingOnComplete : IndexStatusCallback :=
  λ event,
    match status event with
    | complete => throw (JsError "status sink unavailable")
    | _ => ret tt
    end.

Definition rankSuffixes : FilterSuffixes :=
  {| left_suffix := None; right_suffix := None |}.

Definition bothCursors : QueryOptions :=
  {| q_collection := "posts"; q_filterChain := None; q_sort := None;
     q_first := None; q_last := None;
     q_after := Some "cursor-a"; q_before := Some "cursor-b" |}.

Definition docOld : payload :=
  match (get pA dbOld).1 with
  | Ok r => r
  | Throw _ => ∅
  end.

(** A document of [posts] without a body, written to the empty store,
    and what [get] then returns. *)
Definition dBare : payload := {[ "rank" := VNum 2 ]}.

Definition dbBare : Database := (put pA dBare (Some "posts") emptyDb).2.

Definition docBare : payload :=
  match (get pA dbBare).1 with
  | Ok r => r
  | Throw _ => ∅
  end.

(** A document of [posts] with a title that is [undefined]. *)
Definition dUndefined : payload :=
  {[ "rank" := VNum 2; "title" := VUndef; "body" := VStr "old" ]}.

Definition dbUndefined : Database :=
  (put pA dUndefined (Some "posts") emptyDb).2.

Definition docUndefined : payload :=
  match (get pA dbUndefined).1 with
  | Ok r => r
  | Throw _ => ∅
  end.

(** The same document, addressed with backslashes. *)
Definition pW : string := "content\posts\a.md".

Definition dbW : Database := (put pW dOld (Some "posts") emptyDb).2.

Definition dbDeleted : Database := (delete_ pW dbW).2.

Definition dbDeletedByPaths : Database :=
  (deleteContentByPaths defaultStatusCallback [pW] (dbW, [])).2.1.

(** A second document of [posts], and the store holding both. *)
Definition pB : string := "content/posts/b.md".

Definition dbTwo : Database := (put pB dNew (Some "posts") dbOld).2.

Definition twoItems : list (string * record) :=
  [(pA, RDoc dOld); (pB, RDoc dNew)].

(** The first post in path order. *)
Definition firstPost : QueryOptions :=
  {| q_collection := "posts"; q_filterChain := None; q_sort := None;
     q_first := Some 1%Z; q_last := None;
     q_after := None; q_before := None |}.

Definition firstPage : QueryResult payload :=
  match (query firstPost get dbTwo).1 with
  | Ok res => res
  | Throw _ =>
      {| result_edges := [];
         pageInfo := {| pi_hasPreviousPage := false; pi_hasNextPage := false;
                        startCursor := ""; endCursor := "" |} |}
  end.


(** * Properties *)

(** ** Running computations *)

Section MonadFacts.
Context {S A B : Type}.

Lemma bind_ok (m : ST S A) (k : A → ST S B) (s s1 : S) (a : A) :
  m s = (Ok a, s1) → bind m k s = k a s1.
Proof. unfold bind. by intros ->. Qed.

Lemma bind_throw (m : ST S A) (k : A → ST S B) (s s1 : S) (e : thrown) :
  m s = (Throw e, s1) → bind m k s = (Throw e, s1).
Proof. unfold bind. by intros ->. Qed.

Lemma bind_ok_inv (m : ST S A) (k : A → ST S B) (s s' : S) (b : B) :
  bind m k s = (Ok b, s') →
  ∃ a s1, m s = (Ok a, s1) ∧ k a s1 = (Ok b, s').
Proof.
  unfold bind. destruct (m s) as [[a|e] s1]; intros Hk.
  - by exists a, s1.
  - discriminate.
Qed.

Lemma try_catch_ok_inv (m : ST S A) (h : thrown → ST S A) (s s' : S) (a : A) :
  try_catch m h s = (Ok a, s') →
  m s = (Ok a, s') ∨ ∃ e s1, m s = (Throw e, s1) ∧ h e s1 = (Ok a, s').
Proof.
  unfold try_catch. destruct (m s) as [[a0|e] s1]; intros Hk.
  - by left.
  - right. by exists e, s1.
Qed.

End MonadFacts.

Section SimpleProperties.
Context `{Externals}.

(** ** Reserved system files *)

Lemma isSystemFile_true (filepath : string) :
  filepath ∈ SYSTEM_FILES → isSystemFile filepath = true.
Proof. intros Hin. unfold isSystemFile. by apply bool_decide_eq_true. Qed.

(** C10.  For a path equal to one of the reserved names [_schema],
    [_graphql], [_lookup], the calls [get], [stringifyFile] and [put]
    all throw and leave the database (store, bridge and caches) exactly
    as it was; [get] and [stringifyFile] raise the plain error, [put]
    raises it wrapped as the fetch error of the write path. *)
Theorem system_files_rejected (filepath : string) (data : payload)
    (collection : option string) (db : Database) :
  filepath ∈ SYSTEM_FILES →
  get filepath db =
    (Throw (JsError ("Unexpected get for config file " +:+ filepath)), db)
  ∧ stringifyFile filepath data db =
    (Throw (JsError ("Unexpected put for config file " +:+ filepath)), db)
  ∧ put filepath data collection db =
    (Throw (TinaFetchError ("Error in PUT for " +:+ filepath)
              (JsError ("Unexpected put for config file " +:+ filepath))
              filepath collection), db).
Proof.
  intros Hin. apply isSystemFile_true in Hin.
  unfold get, stringifyFile, put, try_catch.
  rewrite Hin. by repeat split.
Qed.

(** ** The effective limit *)

Lemma filterSubject_state indexDefinition filterSuffixes groups filepath val
    (db : Database) :
  (filterSubject indexDefinition filterSuffixes groups filepath val db).2 = db.
Proof.
  unfold filterSubject, bind, level_get, ret.
  destruct filterSuffixes, indexDefinition; try done.
  by destruct (level db !! _).
Qed.

Lemma limitReached_unlimited (st : ScanState) : limitReached (-1) st = false.
Proof. done. Qed.

Lemma scan_unlimited indexDefinition filterSuffixes filterChain reverse
    (items : list (string * record)) (st : ScanState) (db : Database) :
  (∀ item, item ∈ items →
     ∃ o, candidate indexDefinition filterSuffixes filterChain db item = Ok o) →
  ∃ st',
    scan indexDefinition filterSuffixes filterChain (-1) reverse items st db
      = (Ok st', db)
    ∧ hasNextPage st' = hasNextPage st
    ∧ hasPreviousPage st' = hasPreviousPage st
    ∧ edges st' = edges st ++
        omap (candidateEdge indexDefinition filterSuffixes filterChain db) items.
Proof.
  revert st. induction items as [|[key val] rest IH]; intros st Hall.
  - exists st. simpl. by rewrite app_nil_r.
  - assert (Hrest : ∀ item, item ∈ rest →
      ∃ o, candidate indexDefinition filterSuffixes filterChain db item = Ok o).
    { intros item Hin. apply Hall. by right. }
    destruct (Hall (key, val)) as [o Ho]; [by left|].
    simpl. unfold candidateEdge at 1. rewrite Ho.
    unfold candidate in Ho. simpl in Ho.
    destruct (valuesRegexExec indexDefinition key) as [groups|] eqn:Hre.
    + pose proof (filterSubject_state indexDefinition filterSuffixes groups
                    (default "" (groups !! "_filepath_")) val db) as Hst.
      unfold bind at 1.
      destruct (filterSubject indexDefinition filterSuffixes groups
                  (default "" (groups !! "_filepath_")) val db)
        as [[subject|e] db1]; simpl in Hst; subst db1; [|discriminate].
      injection Ho as <-.
      destruct (makeFilter filterChain subject); simpl.
      * destruct (IH (appendEdge key (default "" (groups !! "_filepath_")) st)
                    Hrest) as (st' & Hscan & Hn & Hp & He).
        exists st'. split; [done|]. split; [done|]. split; [done|].
        rewrite He. simpl. by rewrite <- app_assoc.
      * apply IH, Hrest.
    + injection Ho as <-. apply IH, Hrest.
Qed.

(** C5 (amended).  The effective limit is [first] when [first] is
    supplied and not zero, otherwise [last] when [last] is supplied and
    not zero, otherwise 50.  A limit of -1 is unlimited: the scan then
    never sets [hasNextPage] or [hasPreviousPage], and keeps the edge of
    every iterated key that matches and passes the residual filter. *)
Theorem effective_limit (first last : option Z) :
  (∀ f, first = Some f → f ≠ 0%Z → queryLimit first last = f)
  ∧ (∀ l, first = None ∨ first = Some 0%Z → last = Some l → l ≠ 0%Z →
       queryLimit first last = l)
  ∧ (first = None ∨ first = Some 0%Z → last = None ∨ last = Some 0%Z →
       queryLimit first last = 50%Z)
  ∧ (queryLimit first last = (-1)%Z →
     ∀ indexDefinition filterSuffixes filterChain reverse items st db,
       (∀ item, item ∈ items →
          ∃ o, candidate indexDefinition filterSuffixes filterChain db item
               = Ok o) →
       ∃ st',
         scan indexDefinition filterSuffixes filterChain
              (queryLimit first last) reverse items st db = (Ok st', db)
         ∧ hasNextPage st' = hasNextPage st
         ∧ hasPreviousPage st' = hasPreviousPage st
         ∧ edges st' = edges st ++
             omap (candidateEdge indexDefinition filterSuffixes filterChain db)
                  items).
Proof.
  repeat split.
  - intros f -> Hf. unfold queryLimit, truthy_number. simpl.
    by destruct (Z.eqb_spec f 0).
  - intros l [-> | ->] -> Hl; unfold queryLimit, truthy_number; simpl;
      by destruct (Z.eqb_spec l 0).
  - by intros [-> | ->] [-> | ->].
  - intros -> *. apply scan_unlimited.
Qed.

(** ** Iteration bounds *)

(** C6 (amended).  [gt] is the decoded [after] cursor whenever [after]
    is given (non-empty); [lt] is the decoded [before] cursor only when
    [before] is given and [after] is not: the two cursors are
    alternatives, [after] taking precedence.  The inclusive bounds are
    the fallbacks: [gte] is the left filter prefix (or empty) unless a
    non-empty [gt] was set, [lte] is the right filter prefix followed by
    the max byte (or the max byte alone) unless a non-empty [lt] was
    set. *)
Theorem iteration_bounds (queryOptions : QueryOptions)
    (filterSuffixes : option FilterSuffixes) :
  let bounds := queryBounds queryOptions filterSuffixes in
  let after := q_after queryOptions in
  let before := q_before queryOptions in
  it_gt bounds = (if truthy_string after then atob <$> after else None)
  ∧ it_lt bounds =
      (if truthy_string after then None
       else if truthy_string before then atob <$> before else None)
  ∧ it_gte bounds =
      (if truthy_string (it_gt bounds) then None
       else Some (default "" (filterSuffixes ≫= left_suffix)))
  ∧ it_lte bounds =
      (if truthy_string (it_lt bounds) then None
       else Some (default "" (filterSuffixes ≫= right_suffix) +:+ MAX_BYTE)).
Proof.
  assert (Hdef : ∀ o : option string,
            (if truthy_string o then default "" o else "") = default "" o).
  { intros [s|]; [|done]. simpl. by destruct (String.eqb_spec s "") as [->|]. }
  assert (Hmax : ∀ o : option string,
            (if truthy_string o then default "" o +:+ MAX_BYTE else MAX_BYTE)
            = default "" o +:+ MAX_BYTE).
  { intros [s|]; [|done]. simpl. by destruct (String.eqb_spec s "") as [->|]. }
  unfold queryBounds, fallbackBounds, cursorBounds. simpl.
  rewrite Hdef, Hmax.
  destruct (truthy_string (q_after queryOptions)) eqn:Ha; simpl.
  - destruct (q_after queryOptions) as [a|]; [|done]. simpl.
    by destruct (negb (String.eqb (atob a) "")) eqn:Hd; simpl; rewrite ?Hd.
  - destruct (truthy_string (q_before queryOptions)) eqn:Hb; simpl; [|done].
    destruct (q_before queryOptions) as [b|]; [|done]. simpl.
    by destruct (negb (String.eqb (atob b) "")) eqn:Hd; simpl; rewrite ?Hd.
Qed.

(** ** Hydration failures *)

(** C8 (amended).  When the hydrator throws for an edge, the error is
    re-raised wrapped as a [TinaQueryError] carrying the edge's path and
    the collection name exactly when the thrown value is an [Error] and
    the path does not contain [.tina/__generated__/_graphql.json];
    otherwise (a thrown value that is not an [Error], or a path
    containing that file name) the original value is re-raised as it
    is. *)
Theorem hydration_failure {N : Type} (hydrator : string → M N)
    (collection : string) (edge : Edge) (db db' : Database) (e : thrown) :
  hydrator (edge_path edge) db = (Throw e, db') →
  hydrateEdge hydrator collection edge db =
    (Throw (if instanceofError e &&
               negb (string_includes GRAPHQL_CONFIG_PATH (edge_path edge))
            then TinaQueryError e (edge_path edge) collection
            else e), db').
Proof.
  intros Hh. unfold hydrateEdge, try_catch.
  rewrite (bind_throw _ _ _ _ _ Hh).
  by destruct (instanceofError e && _).
Qed.

(** The first edge whose hydrator throws decides what [sequential]
    raises: the edges before it were hydrated, the ones after are not
    visited. *)
Lemma sequential_first_failure {A B : Type} (callback : A → M B)
    (done_ : list A) (x : A) (rest : list A) (db db1 db2 : Database)
    (ys : list B) (e : thrown) :
  sequential done_ callback db = (Ok ys, db1) →
  callback x db1 = (Throw e, db2) →
  sequential (done_ ++ x :: rest) callback db = (Throw e, db2).
Proof.
  revert db ys. induction done_ as [|d ds IH]; intros db ys Hdone Hx.
  - injection Hdone as <- <-. simpl. by rewrite (bind_throw _ _ _ _ _ Hx).
  - simpl in Hdone. apply bind_ok_inv in Hdone as (y & dba & Hd & Hrest).
    apply bind_ok_inv in Hrest as (ys' & dbb & Hds & Hret).
    injection Hret as <- <-.
    simpl. rewrite (bind_ok _ _ _ _ _ Hd).
    by rewrite (bind_throw _ _ _ _ _ (IH _ _ Hds Hx)).
Qed.

End SimpleProperties.

(** ** The flush loop *)

Section Batching.
Context `{Externals}.

(** The rounds allotted to the flush loop are enough: it ends normally,
    and only when fewer than [threshold] operations are left. *)
Lemma drain_completes (fuel threshold : nat) (operations : list BatchOp)
    (db : Database) :
  1 ≤ threshold → List.length operations ≤ fuel →
  ∃ rest db', drain fuel threshold operations db = (Ok rest, db')
              ∧ List.length rest < threshold.
Proof.
  intros Ht. revert operations db.
  induction fuel as [|fuel IH]; intros operations db Hlen.
  - exists operations, db. split; [done|]. lia.
  - simpl. destruct (decide (threshold ≤ List.length operations)) as [Hge|Hlt].
    + cbv [bind level_batch modify]. apply IH.
      rewrite length_drop. lia.
    + exists operations, db. split; [done|]. lia.
Qed.

Lemma flushOps_completes (operations : list BatchOp) (db : Database) :
  ∃ db', flushOps operations db = (Ok tt, db').
Proof.
  unfold flushOps.
  destruct (drain_completes (List.length operations) 1 operations db)
    as (rest & db' & Hrun & _); [lia..|].
  exists db'. by rewrite (bind_ok _ _ _ _ _ Hrun).
Qed.

End Batching.

(** ** Status events of the long-running operations *)

Section StatusEvents.
Context `{Externals}.

(** The wrapper around any function, for a callback that returns
    normally: [inprogress] is emitted first, on the untouched database;
    then the function runs; then exactly one of [complete] and [failed]
    follows, and a failure is re-thrown. *)
Lemma wrapper_trace {A : Type} (cb : IndexStatusCallback) (fn : M A)
    (db : Database) (log : list IndexStatusEvent) :
  callbackReturns cb →
  indexStatusCallbackWrapper cb fn (db, log) =
    match fn (cb inprogressEvent db).2 with
    | (Ok a, db2) =>
        (Ok a, ((cb completeEvent db2).2,
                log ++ [inprogressEvent; completeEvent]))
    | (Throw e, db2) =>
        (Throw e, ((cb (failedEvent e) db2).2,
                   log ++ [inprogressEvent; failedEvent e]))
    end.
Proof.
  intros Hcb.
  unfold indexStatusCallbackWrapper, bind, try_catch, indexStatusCallback,
    liftDb, throw, ret. simpl.
  pose proof (Hcb inprogressEvent db) as H0.
  destruct (cb inprogressEvent db) as [r0 db1]. simpl in *. subst r0.
  destruct (fn db1) as [[a|e] db2]; simpl.
  - pose proof (Hcb completeEvent db2) as H1.
    destruct (cb completeEvent db2) as [r1 db3]. simpl in *. subst r1.
    by rewrite <- app_assoc.
  - pose proof (Hcb (failedEvent e) db2) as H1.
    destruct (cb (failedEvent e) db2) as [r1 db3]. simpl in *. subst r1.
    by rewrite <- app_assoc.
Qed.

(** C4 (amended).  Provided the status callback itself returns normally:
    each of [indexContent], [indexContentByPaths] and
    [deleteContentByPaths] emits [inprogress] first, before its body has
    touched the database; when the body succeeds it emits exactly one
    [complete] and no [failed]; when the body throws it emits exactly
    one [failed] carrying the error, no [complete], and re-throws that
    same error. *)
Theorem status_events (cb : IndexStatusCallback) (op : LongRunning)
    (db : Database) (log : list IndexStatusEvent) :
  callbackReturns cb →
  match operationBody op (cb inprogressEvent db).2 with
  | (Ok _, _) =>
      ∃ db3, runOperation cb op (db, log) =
               (Ok tt, (db3, log ++ [inprogressEvent; completeEvent]))
  | (Throw e, db2) =>
      runOperation cb op (db, log) =
        (Throw e, ((cb (failedEvent e) db2).2,
                   log ++ [inprogressEvent; failedEvent e]))
  end.
Proof.
  intros Hcb. unfold runOperation, bind.
  rewrite (wrapper_trace cb (operationBody op) db log Hcb).
  destruct (operationBody op (cb inprogressEvent db).2) as [[ops|e] db2];
    [|done].
  destruct (flushOps_completes ops (cb completeEvent db2).2) as [db3 Hflush].
  exists db3. unfold liftDb. simpl. by rewrite Hflush.
Qed.

End StatusEvents.

(** ** The index-definition builder *)

Section IndexDefinitions.
Context `{Externals}.
















End IndexDefinitions.

Section Caches.
Context `{Externals}.

(** [getSchema] only ever writes the schema cache. *)
Lemma getSchema_frame (db db1 : Database) (r : Res TinaSchema) :
  getSchema db = (r, db1) →
  level db1 = level db ∧ bridge db1 = bridge db
  ∧ collectionIndexDefinitions db1 = collectionIndexDefinitions db
  ∧ _lookup db1 = _lookup db
  ∧ (∀ s, r = Ok s → tinaSchema db1 = Some s)
  ∧ (∀ s, tinaSchema db = Some s → r = Ok s ∧ db1 = db).
Proof.
  cbv [getSchema getTinaSchema level_get bind gets lift modify ret throw].
  destruct (tinaSchema db) as [s0|] eqn:Hc.
  - intros [= <- <-]. split_and!; try done.
    + by intros s [= <-].
    + by intros s [= <-].
  - destruct (level db !! (rootSublevel, generatedPath "_schema.json"))
      as [rec|]; [|by intros [= <- <-]].
    destruct rec as [?|base|?|?]; try by intros [= <- <-].
    destruct (createSchema base) as [s1|e]; intros [= <- <-]; split_and!;
      try done.
    by intros ? [= <-].
Qed.

Lemma getSchema_cached (db : Database) (s : TinaSchema) :
  tinaSchema db = Some s → getSchema db = (Ok s, db).
Proof.
  intros Hc. destruct (getSchema db) as [r db1] eqn:Hg.
  apply getSchema_frame in Hg as (_ & _ & _ & _ & _ & Hcached).
  by destruct (Hcached s Hc) as [-> ->].
Qed.




(** Once built, the table is served from the cache. *)
Lemma getIndexDefinitions_cached (db : Database)
    (table : gmap string (gmap string IndexDefinition)) :
  collectionIndexDefinitions db = Some table →
  getIndexDefinitions db = (Ok (Some table), db).
Proof.
  intros Hc. cbv [getIndexDefinitions bind gets ret].
  rewrite Hc. simpl. by rewrite Hc.
Qed.

(** [clearCache] resets the schema cache and the lookup cache, and leaves
    the index-definition cache as it is: the next [getIndexDefinitions]
    answers from the table built before. *)
Lemma clearCache_effect (db : Database) :
  tinaSchema (clearCache db) = None
  ∧ _lookup (clearCache db) = None
  ∧ collectionIndexDefinitions (clearCache db) = collectionIndexDefinitions db
  ∧ level (clearCache db) = level db
  ∧ bridge (clearCache db) = bridge db.
Proof. done. Qed.

Lemma clearCache_stale_definitions (db : Database)
    (table : gmap string (gmap string IndexDefinition)) :
  collectionIndexDefinitions db = Some table →
  getIndexDefinitions (clearCache db) = (Ok (Some table), clearCache db).
Proof. intros Hc. by apply getIndexDefinitions_cached. Qed.

End Caches.

(** ** Batches and index keys *)

Section Store.
Context `{Externals}.

Lemma batch_app (l : Level) (ops1 ops2 : list BatchOp) :
  batch l (ops1 ++ ops2) = batch (batch l ops1) ops2.
Proof. apply fold_left_app. Qed.

Lemma batch_other (l : Level) (ops : list BatchOp) (a : list string * string) :
  a ∉ op_target <$> ops → batch l ops !! a = l !! a.
Proof.
  revert l. induction ops as [|op ops IH]; intros l Hno; [done|].
  apply not_elem_of_cons in Hno as [Hne Hno].
  simpl. rewrite (IH _ Hno).
  destruct op; simpl in *.
  - by apply lookup_insert_ne.
  - by apply lookup_delete_ne.
Qed.

Lemma jsonPayload_lookup (p : payload) (k : string) :
  jsonPayload p !! k = p !! k ≫= jsonValue.
Proof. apply lookup_omap. Qed.

Lemma jsonPayload_empty : jsonPayload ∅ = ∅.
Proof. apply omap_empty. Qed.

Lemma elem_of_indexTargets c defs data path (sub : list string) (k : string) :
  (sub, k) ∈ indexTargets c defs data path ↔
  ∃ sort def, defs !! sort = Some def ∧ sub = [c; sort]
              ∧ indexEntry sort def data path = Some k.
Proof.
  unfold indexTargets. rewrite list_elem_of_omap. split.
  - intros ([sort def] & Hin & Hentry).
    apply elem_of_map_to_list in Hin. simpl in Hentry.
    destruct (indexEntry sort def data path) as [k'|] eqn:He; [|done].
    injection Hentry as <- <-. by exists sort, def.
  - intros (sort & def & Hl & -> & Hentry). exists (sort, def).
    split; [by apply elem_of_map_to_list|]. simpl. by rewrite Hentry.
Qed.

Lemma makeIndexOps_targets c defs data path opType :
  c ≠ "" →
  makeIndexOpsForDocument path (Some c) (Some defs) data opType =
  Ok ((λ t : list string * string, indexOp opType t.1 t.2)
        <$> indexTargets c defs data path).
Proof.
  intros Hc. unfold makeIndexOpsForDocument, indexTargets. simpl.
  destruct (String.eqb_spec c "") as [->|_]; [done|]. simpl.
  f_equal. induction (map_to_list defs) as [|[sort def] rest IH]; [done|].
  csimpl. destruct (indexEntry sort def data path); csimpl; by rewrite IH.
Qed.


Lemma batch_index_ops (l : Level) (opType : OpType)
    (targets : list (list string * string)) (a : list string * string) :
  batch l ((λ t : list string * string, indexOp opType t.1 t.2) <$> targets)
    !! a
  = if decide (a ∈ targets) then opOutcome opType else l !! a.
Proof.
  revert l. induction targets as [|[sub k] ts IH]; intros l; [done|].
  simpl. rewrite IH.
  destruct (decide (a ∈ ts)) as [Hin|Hnotin].
  - rewrite decide_True; [done|by right].
  - destruct (decide (a = (sub, k))) as [->|Hne].
    + rewrite decide_True by by left.
      destruct opType; simpl.
      * rewrite jsonPayload_empty. apply lookup_insert_eq.
      * apply lookup_delete_eq.
    + rewrite decide_False by (by intros [?|?]%elem_of_cons).
      destruct opType; simpl.
      * by apply lookup_insert_ne.
      * by apply lookup_delete_ne.
Qed.

(** The store after the batch of a write: for an index key, the new
    entries are present, the stale ones that were not rewritten are
    gone, everything else is as before. *)
Lemma write_batch_index (l : Level) c defs (old : option payload)
    (new : payload) (path : string) (v : record) (sub : list string)
    (k : string) :
  sub ≠ rootSublevel →
  batch l
    (((λ t : list string * string, indexOp OpDelType t.1 t.2) <$>
        match old with
        | Some o => indexTargets c defs o path
        | None => []
        end) ++
     ((λ t : list string * string, indexOp OpPutType t.1 t.2) <$>
        indexTargets c defs new path) ++
     [PutOp rootSublevel path v]) !! (sub, k)
  = if decide ((sub, k) ∈ indexTargets c defs new path) then Some (RDoc ∅)
    else match old with
         | Some o =>
             if decide ((sub, k) ∈ indexTargets c defs o path) then None
             else l !! (sub, k)
         | None => l !! (sub, k)
         end.
Proof.
  intros Hsub. rewrite !batch_app.
  change (batch ?m [PutOp rootSublevel path v])
    with (<[(rootSublevel, path) := jsonRecord v]> m).
  rewrite lookup_insert_ne by congruence.
  rewrite batch_index_ops.
  destruct (decide _) as [|_]; [done|].
  destruct old as [o|]; [|done].
  apply batch_index_ops.
Qed.

Lemma write_batch_primary (l : Level) (dels puts : list BatchOp)
    (path : string) (v : record) :
  batch l (dels ++ puts ++ [PutOp rootSublevel path v])
    !! (rootSublevel, path) = Some (jsonRecord v).
Proof. rewrite !batch_app. simpl. apply lookup_insert_eq. Qed.

(** The path component of a composite key. *)
Lemma keyPath_plain (k : string) : has_separator k = false → keyPath k = k.
Proof.
  destruct k as [|c k]; [done|]. simpl.
  intros Hs. apply orb_false_iff in Hs as [Hc Hk]. by rewrite Hk, Hc.
Qed.

Lemma has_separator_app (pre k : string) :
  has_separator (pre +:+ String INDEX_KEY_FIELD_SEPARATOR k) = true.
Proof.
  induction pre as [|c pre IH]; simpl.
  - by rewrite Ascii.eqb_refl.
  - rewrite IH. apply orb_true_r.
Qed.

Lemma keyPath_after_separator (pre k : string) :
  keyPath (pre +:+ String INDEX_KEY_FIELD_SEPARATOR k) = keyPath k.
Proof.
  induction pre as [|c pre IH]; simpl.
  - rewrite Ascii.eqb_refl.
    destruct (has_separator k) eqn:Hs; [done|]. by rewrite keyPath_plain.
  - by rewrite has_separator_app.
Qed.

Lemma keyPath_field (pre k : string) :
  keyPath (pre +:+ SEP +:+ k) = keyPath k.
Proof. apply keyPath_after_separator. Qed.

Lemma keyPath_indexKey (def : IndexDefinition) (data : payload)
    (path : string) :
  has_separator path = false → keyPath (indexKey def data path) = path.
Proof.
  intros Hp. unfold indexKey.
  induction (fields def) as [|f fs IH]; simpl.
  - by apply keyPath_plain.
  - by rewrite keyPath_field.
Qed.

(** The key depends on the document only through the fields of the
    index definition. *)
Lemma indexKey_ext (def : IndexDefinition) (d d' : payload) (path : string) :
  (∀ f, f ∈ fields def → js_get d (ix_name f) = js_get d' (ix_name f)) →
  indexKey def d path = indexKey def d' path.
Proof.
  unfold indexKey. induction (fields def) as [|f fs IH]; intros Hagree;
    [done|].
  simpl. rewrite Hagree by by left. rewrite IH; [done|].
  intros g Hg. apply Hagree. by right.
Qed.

(** The path component of the key of a document in an index. *)
Lemma keyPath_indexEntry (sort : string) (def : IndexDefinition)
    (data : payload) (path k : string) :
  has_separator path = false →
  indexEntry sort def data path = Some k → keyPath k = path.
Proof.
  intros Hp. unfold indexEntry.
  destruct (String.eqb sort DEFAULT_COLLECTION_SORT_KEY).
  - intros [= <-]. by apply keyPath_plain.
  - destruct (holdsFields def data && hasIndexValue def data); [|done].
    intros [= <-]. by apply keyPath_indexKey.
Qed.

End Store.

(** ** The write path *)

Section WritePath.
Context `{Externals}.

Lemma lift_ok_inv {S A : Type} (r : Res A) (s s' : S) (a : A) :
  lift r s = (Ok a, s') → r = Ok a ∧ s' = s.
Proof. unfold lift. by intros [= -> ->]. Qed.

Lemma indexCollections_frame (collections : list Collection)
    (db db' : Database) (r : Res unit) :
  indexCollections collections db = (r, db') →
  level db' = level db ∧ bridge db' = bridge db
  ∧ tinaSchema db' = tinaSchema db ∧ _lookup db' = _lookup db.
Proof.
  revert db. induction collections as [|c rest IH]; intros db.
  - by intros [= <- <-].
  - simpl. cbv [bind lift modify].
    destruct (collectionIndexes c) as [T|e]; [|by intros [= <- <-]].
    intros Hrest. by apply IH in Hrest.
Qed.

Lemma getIndexDefinitions_frame (db db' : Database)
    (r : Res (option (gmap string (gmap string IndexDefinition)))) :
  getIndexDefinitions db = (r, db') →
  level db' = level db ∧ bridge db' = bridge db
  ∧ (∀ t, r = Ok t → t = collectionIndexDefinitions db').
Proof.
  unfold getIndexDefinitions. cbv [bind gets ret].
  destruct (collectionIndexDefinitions db) as [t0|] eqn:Hc.
  - intros [= <- <-]. split_and!; try done. by intros t [= <-].
  - destruct (getSchema db) as [[s|e] db1] eqn:Hs.
    + apply getSchema_frame in Hs as (Hl & Hb & _).
      destruct (indexCollections (getCollections s) db1) as [[[]|e] db2] eqn:Hi;
        apply indexCollections_frame in Hi as (Hl2 & Hb2 & _);
        intros [= <- <-]; split_and!; try congruence;
        by intros t [= <-].
    + apply getSchema_frame in Hs as (Hl & Hb & _).
      intros [= <- <-]. split_and!; try done.
Qed.

Lemma lookupDefinitions_inv (c : string) (db db' : Database)
    (defs : option (gmap string IndexDefinition)) :
  c ≠ "" →
  lookupDefinitions (Some c) db = (Ok defs, db') →
  level db' = level db ∧ bridge db' = bridge db
  ∧ defs = collectionIndexDefinitions db' ≫= (.!! c).
Proof.
  intros Hc. unfold lookupDefinitions. simpl.
  destruct (String.eqb_spec c "") as [->|_]; [done|]. simpl.
  intros Hrun. apply bind_ok_inv in Hrun as (t & db1 & Hget & [= <- <-]).
  apply getIndexDefinitions_frame in Hget as (Hl & Hb & Ht).
  split_and!; try done. by rewrite (Ht t eq_refl).
Qed.

Lemma stringifyFile_inv (filepath : string) (data : payload)
    (db db' : Database) (sf : StringifiedFile) :
  stringifyFile filepath data db = (Ok sf, db') →
  level db' = level db ∧ bridge db' = bridge db
  ∧ collectionIndexDefinitions db' = collectionIndexDefinitions db
  ∧ ∃ s c info t,
      tinaSchema db' = Some s
      ∧ getCollectionByFullPath s filepath = Ok (Some c)
      ∧ getTemplatesForCollectable s (Some c) = Ok info
      ∧ resolveTemplate info data = Ok t
      ∧ sf_payload sf = writePayload t c data.
Proof.
  unfold stringifyFile. destruct (isSystemFile filepath); [done|].
  intros Hrun.
  apply bind_ok_inv in Hrun as (s & db1 & Hs & Hrun).
  apply bind_ok_inv in Hrun as (c & db2 & Hcol & Hrun).
  apply lift_ok_inv in Hcol as [Hcol ->].
  apply bind_ok_inv in Hrun as (info & db2 & Hinfo & Hrun).
  apply lift_ok_inv in Hinfo as [Hinfo ->].
  apply bind_ok_inv in Hrun as (t & db2 & Ht & Hrun).
  apply lift_ok_inv in Ht as [Ht ->].
  destruct c as [c|]; [|done].
  apply bind_ok_inv in Hrun as (str & db2 & Hstr & [= <- <-]).
  apply lift_ok_inv in Hstr as [Hstr ->].
  apply getSchema_frame in Hs as (Hl & Hb & Hc & _ & Hsome & _).
  split_and!; try done. exists s, c, info, t. split_and!; try done.
  by apply Hsome.
Qed.

Lemma getExisting_run (key : string) (db : Database) :
  getExisting key db =
    (Ok (level db !! (rootSublevel, key)), db).
Proof.
  cbv [getExisting try_catch bind level_get ret throw].
  by destruct (level db !! (rootSublevel, key)).
Qed.

(** What a successful [put] did: one bridge write, then one batch of
    stale deletions, new index entries and the primary record. *)
Lemma put_ok_inv (filepath : string) (data : payload)
    (collection : option string) (db db' : Database) :
  put filepath data collection db = (Ok true, db') →
  ∃ defs dbA sf dbB putOps delOps,
    lookupDefinitions collection db = (Ok defs, dbA)
    ∧ stringifyFile filepath data dbA = (Ok sf, dbB)
    ∧ makeIndexOpsForDocument (normalizePath filepath) collection defs
        (sf_payload sf) OpPutType = Ok putOps
    ∧ match level dbB !! (rootSublevel, normalizePath filepath) with
      | Some item =>
          makeIndexOpsForDocument (normalizePath filepath) collection defs
            (record_payload item) OpDelType = Ok delOps
      | None => delOps = []
      end
    ∧ db' =
      set_level
        (λ l, batch l
           (delOps ++ putOps ++
            [PutOp rootSublevel (normalizePath filepath)
                   (RDoc (sf_payload sf))]))
        (set_bridge (<[normalizePath filepath := stringifiedFile sf]>) dbB).
Proof.
  unfold put. intros Hrun.
  apply try_catch_ok_inv in Hrun as [Hrun | (e & db1 & _ & Hthrow)];
    [|done].
  destruct (isSystemFile filepath); [done|].
  apply bind_ok_inv in Hrun as (defs & dbA & Hdefs & Hrun).
  apply bind_ok_inv in Hrun as (sf & dbB & Hsf & Hrun).
  apply bind_ok_inv in Hrun as ([] & dbC & [= <-] & Hrun).
  apply bind_ok_inv in Hrun as (putOps & dbD & Hput & Hrun).
  apply lift_ok_inv in Hput as [Hput ->].
  apply bind_ok_inv in Hrun as (existing & dbD & Hex & Hrun).
  rewrite getExisting_run in Hex. injection Hex as <- <-.
  apply bind_ok_inv in Hrun as (delOps & dbE & Hdel & Hrun).
  apply bind_ok_inv in Hrun as ([] & dbF & [= <-] & [= <-]).
  exists defs, dbA, sf, dbB, putOps, delOps.
  cbv [level set_bridge] in Hdel. fold (level dbB) in Hdel.
  destruct (level dbB !! (rootSublevel, normalizePath filepath)) as [item|].
  - apply lift_ok_inv in Hdel as [Hdel ->]. by split_and!.
  - injection Hdel as <- <-. by split_and!.
Qed.

End WritePath.

Section Overwrite.
Context `{Externals}.



(** The batch of one write, over the store as it was before the write:
    del-ops for the index entries of the existing record, put-ops for
    those of the stored payload, and the primary record. *)
Lemma put_level (filepath : string) (d : payload) (c : string)
    (db0 db1 : Database) (table : gmap string (gmap string IndexDefinition))
    (defs : gmap string IndexDefinition) :
  put filepath d (Some c) db0 = (Ok true, db1) →
  c ≠ "" →
  collectionIndexDefinitions db1 = Some table →
  table !! c = Some defs →
  ∃ stored,
    storedPayload filepath d db1 stored
    ∧ level db1 =
      batch (level db0)
        (((λ t : list string * string, indexOp OpDelType t.1 t.2) <$>
            match record_payload <$>
                    level db0 !! (rootSublevel, normalizePath filepath) with
            | Some o => indexTargets c defs o (normalizePath filepath)
            | None => []
            end) ++
         ((λ t : list string * string, indexOp OpPutType t.1 t.2) <$>
            indexTargets c defs stored (normalizePath filepath)) ++
         [PutOp rootSublevel (normalizePath filepath) (RDoc stored)]).
Proof.
  intros Hput Hc Htable Hdefs.
  apply put_ok_inv in Hput
    as (defs1 & dbA & sf & dbB & putOps & delOps & Hld & Hsf & Hputs & Hdels
        & Hdb1).
  apply lookupDefinitions_inv in Hld as (HlA & _ & Hdefs1); [|done].
  apply stringifyFile_inv in Hsf
    as (HlB & _ & HcB & s & col & info & t & Hs & Hcol & Hinfo & Ht & Hpay).
  assert (Hc1 : collectionIndexDefinitions db1 = collectionIndexDefinitions dbB)
    by by rewrite Hdb1.
  assert (Hs1 : tinaSchema db1 = Some s) by by rewrite Hdb1.
  rewrite <- HcB, <- Hc1, Htable in Hdefs1. simpl in Hdefs1.
  rewrite Hdefs in Hdefs1. subst defs1.
  set (np := normalizePath filepath) in *.
  rewrite makeIndexOps_targets in Hputs by done. injection Hputs as <-.
  assert (Hdel : delOps =
    (λ t : list string * string, indexOp OpDelType t.1 t.2) <$>
      match record_payload <$> level db0 !! (rootSublevel, np) with
      | Some o => indexTargets c defs o np
      | None => []
      end).
  { rewrite HlB, HlA in Hdels.
    destruct (level db0 !! (rootSublevel, np)) as [item|]; simpl.
    - rewrite makeIndexOps_targets in Hdels by done. by injection Hdels as <-.
    - done. }
  subst delOps.
  exists (sf_payload sf). split; [by exists s, col, info, t|].
  rewrite Hdb1. cbv [level set_level set_bridge].
  fold (level dbB). by rewrite HlB, HlA.
Qed.

(** One write: the primary record of the path becomes the JSON form of
    the stored payload, and the index entries of the path become the
    keys of the stored payload, one in each index under which it has a
    key. *)
Lemma put_entries (filepath : string) (d : payload) (c : string)
    (db0 db1 : Database) (table : gmap string (gmap string IndexDefinition))
    (defs : gmap string IndexDefinition) :
  put filepath d (Some c) db0 = (Ok true, db1) →
  c ≠ "" →
  collectionIndexDefinitions db1 = Some table →
  table !! c = Some defs →
  has_separator (normalizePath filepath) = false →
  indexedExactly db0 c defs (normalizePath filepath) →
  ∃ stored,
    storedPayload filepath d db1 stored
    ∧ level db1 !! (rootSublevel, normalizePath filepath)
        = Some (RDoc (jsonPayload stored))
    ∧ ∀ sort def, defs !! sort = Some def → ∀ k,
        (is_Some (level db1 !! ([c; sort], k))
         ∧ keyPath k = normalizePath filepath)
        ↔ indexEntry sort def stored (normalizePath filepath) = Some k.
Proof.
  intros Hput Hc Htable Hdefs Hsep Hcons.
  destruct (put_level _ _ _ _ _ _ _ Hput Hc Htable Hdefs)
    as (stored & Hstored & Hl1).
  set (np := normalizePath filepath) in *.
  set (old := record_payload <$> level db0 !! (rootSublevel, np)) in *.
  exists stored. split; [done|].
  rewrite Hl1. split; [apply write_batch_primary|].
  intros sort def Hdef k.
  rewrite (write_batch_index _ c defs old) by done.
  destruct (decide (([c; sort], k) ∈ indexTargets c defs stored np))
    as [Hin|Hnotin].
  - apply elem_of_indexTargets in Hin as (sort' & def' & Hdef' & [= <-] & He).
    assert (def' = def) as -> by congruence.
    split; [done|].
    intros _. split; [by eexists|]. by apply (keyPath_indexEntry _ _ _ _ _ Hsep He).
  - split.
    + intros [Hsome Hpath]. exfalso.
      assert (Hstale : is_Some (level db0 !! ([c; sort], k)) →
                       ∃ o, old = Some o
                            ∧ ([c; sort], k) ∈ indexTargets c defs o np).
      { intros Hs0. destruct (Hcons sort def Hdef k) as [Hfwd _].
        destruct (Hfwd (conj Hs0 Hpath)) as (r & Hr & He).
        exists (record_payload r). split; [by unfold old; rewrite Hr|].
        apply elem_of_indexTargets. by exists sort, def. }
      destruct old as [o|].
      * destruct (decide (([c; sort], k) ∈ indexTargets c defs o np))
          as [_|Hno]; [by destruct Hsome|].
        destruct (Hstale Hsome) as (o' & [= <-] & Hin). by apply Hno.
      * by destruct (Hstale Hsome) as (o' & ? & _).
    + intros He. exfalso. apply Hnotin, elem_of_indexTargets.
      by exists sort, def.
Qed.

(** One write keeps the index entries of the written path in step with
    its primary record, and leaves those of every other path alone. *)
Lemma put_reindexes (filepath : string) (d : payload) (c : string)
    (db0 db1 : Database) (table : gmap string (gmap string IndexDefinition))
    (defs : gmap string IndexDefinition) (q : string) :
  put filepath d (Some c) db0 = (Ok true, db1) →
  c ≠ "" →
  collectionIndexDefinitions db1 = Some table →
  table !! c = Some defs →
  has_separator (normalizePath filepath) = false →
  keysSurviveStorage defs →
  indexedExactly db0 c defs q →
  indexedExactly db1 c defs q.
Proof.
  intros Hput Hc Htable Hdefs Hsep Hkeys Hcons.
  destruct (decide (q = normalizePath filepath)) as [->|Hq].
  - destruct (put_entries _ _ _ _ _ _ _ Hput Hc Htable Hdefs Hsep Hcons)
      as (stored & _ & Hrec & Hent).
    intros sort def Hdef k. rewrite (Hent sort def Hdef k). split.
    + intros He. exists (RDoc (jsonPayload stored)). split; [done|].
      simpl. by rewrite (Hkeys sort def stored _ Hdef).
    + intros (r & Hr & He). rewrite Hrec in Hr. injection Hr as <-.
      simpl in He. by rewrite (Hkeys sort def stored _ Hdef) in He.
  - destruct (put_level _ _ _ _ _ _ _ Hput Hc Htable Hdefs)
      as (stored & _ & Hl1).
    set (np := normalizePath filepath) in *.
    set (old := record_payload <$> level db0 !! (rootSublevel, np)) in *.
    assert (Hroot : level db1 !! (rootSublevel, q)
                    = level db0 !! (rootSublevel, q)).
    { rewrite Hl1, !batch_app.
      change (batch ?m [PutOp rootSublevel np (RDoc stored)])
        with (<[(rootSublevel, np) := jsonRecord (RDoc stored)]> m).
      rewrite lookup_insert_ne by congruence.
      rewrite !batch_index_ops.
      assert (Hno : ∀ data, (rootSublevel, q) ∉ indexTargets c defs data np).
      { intros data Hin.
        by apply elem_of_indexTargets in Hin as (? & ? & _ & [=] & _). }
      rewrite decide_False by apply Hno.
      destruct old as [o|]; [|done].
      by rewrite decide_False by apply Hno. }
    assert (Hother : ∀ sort k, keyPath k = q →
              level db1 !! ([c; sort], k) = level db0 !! ([c; sort], k)).
    { intros sort k Hk. rewrite Hl1.
      rewrite (write_batch_index _ c defs old) by done.
      assert (Hno : ∀ data, ([c; sort], k) ∉ indexTargets c defs data np).
      { intros data Hin.
        apply elem_of_indexTargets in Hin as (sort' & def' & _ & _ & He).
        apply (keyPath_indexEntry _ _ _ _ _ Hsep) in He. congruence. }
      rewrite decide_False by apply Hno.
      destruct old as [o|]; [|done].
      by rewrite decide_False by apply Hno. }
    intros sort def Hdef k. rewrite Hroot. split.
    + intros [Hsome Hk]. rewrite (Hother sort k Hk) in Hsome.
      by apply (Hcons sort def Hdef k).
    + intros Hr. apply (Hcons sort def Hdef k) in Hr as [Hsome Hk].
      by rewrite (Hother sort k Hk).
Qed.


(** ** Deleting a document *)

Lemma collectionForPath_frame (filepath : string) (db db' : Database)
    (r : Res (option Collection)) :
  collectionForPath filepath db = (r, db') →
  level db' = level db ∧ bridge db' = bridge db
  ∧ collectionIndexDefinitions db' = collectionIndexDefinitions db.
Proof.
  unfold collectionForPath. cbv [bind lift].
  destruct (getSchema db) as [[s|e] db1] eqn:Hs;
    apply getSchema_frame in Hs as (Hl & Hb & Hc & _);
    by intros [= <- <-].
Qed.

(** What a successful [delete] did: one batch of del-ops built from the
    path as given plus the del of the primary record under the
    normalized key, then the removal of the file. *)
Lemma delete_ok_inv (filepath : string) (db db' : Database) :
  delete_ filepath db = (Ok tt, db') →
  ∃ col dbA table dbB item delOps,
    collectionForPath filepath db = (Ok (Some col), dbA)
    ∧ getIndexDefinitions dbA = (Ok table, dbB)
    ∧ level dbB !! (rootSublevel, normalizePath filepath) = Some item
    ∧ makeIndexOpsForDocument filepath (Some (col_name col))
        (table ≫= (.!! col_name col)) (record_payload item) OpDelType
      = Ok delOps
    ∧ db' =
      set_bridge (delete (normalizePath filepath))
        (set_level
           (λ l, batch l
              (delOps ++ [DelOp rootSublevel (normalizePath filepath)]))
           dbB).
Proof.
  unfold delete_. intros Hrun.
  apply bind_ok_inv in Hrun as (col & dbA & Hcol & Hrun).
  apply bind_ok_inv in Hrun as (defs & dbB & Hdefs & Hrun).
  apply bind_ok_inv in Hrun as (item & dbC & Hitem & Hrun).
  apply bind_ok_inv in Hrun as ([] & dbD & Hbatch & [= <-]).
  destruct col as [col|]; [|done].
  apply bind_ok_inv in Hdefs as (table & dbB' & Htable & [= <- ->]).
  apply bind_ok_inv in Hbatch as (delOps & dbE & Hops & [= <-]).
  apply lift_ok_inv in Hops as [Hops ->].
  unfold level_get in Hitem.
  destruct (level dbB !! (rootSublevel, normalizePath filepath))
    as [item'|] eqn:Hl; [|done].
  injection Hitem as -> <-.
  by exists col, dbA, table, dbB, item, delOps.
Qed.

(** X9.  For a path that normalization leaves as it is and whose index
    entries are those of its primary record, a successful [delete]
    removes the primary record, the file, and every index entry of the
    document: no key of any index of the collection still ends in the
    path. *)
Lemma delete_normalized (filepath : string) (db dbA db' : Database)
    (col : Collection) (table : gmap string (gmap string IndexDefinition))
    (defs : gmap string IndexDefinition) :
  delete_ filepath db = (Ok tt, db') →
  normalizePath filepath = filepath →
  collectionForPath filepath db = (Ok (Some col), dbA) →
  col_name col ≠ "" →
  collectionIndexDefinitions db' = Some table →
  table !! col_name col = Some defs →
  indexedExactly db (col_name col) defs filepath →
  level db' !! (rootSublevel, filepath) = None
  ∧ bridge db' !! filepath = None
  ∧ ∀ sort def, defs !! sort = Some def → ∀ k,
      is_Some (level db' !! ([col_name col; sort], k)) →
      keyPath k ≠ filepath.
Proof.
  intros Hdel Hnorm Hcol Hname Htable Hdefs Hcons.
  apply delete_ok_inv in Hdel
    as (col' & dbA' & t & dbB & item & delOps & Hcol' & Ht & Hitem & Hops
        & Hdb).
  rewrite Hcol in Hcol'. injection Hcol' as <- <-.
  apply collectionForPath_frame in Hcol as (HlA & _ & _).
  apply getIndexDefinitions_frame in Ht as (HlB & _ & Hcached).
  rewrite Hnorm in *.
  assert (Ht : t = Some table).
  { rewrite (Hcached t eq_refl), <- Htable. by rewrite Hdb. }
  subst t. simpl in Hops. rewrite Hdefs in Hops.
  rewrite makeIndexOps_targets in Hops by done. injection Hops as <-.
  assert (Hl : level db' =
    batch (level db)
      (((λ t : list string * string, indexOp OpDelType t.1 t.2) <$>
          indexTargets (col_name col) defs (record_payload item) filepath) ++
       [DelOp rootSublevel filepath])).
  { rewrite Hdb. cbv [level set_level set_bridge]. fold (level dbB).
    by rewrite HlB, HlA. }
  assert (Hb : bridge db' = delete filepath (bridge dbB)) by by rewrite Hdb.
  clear Hdb. rewrite Hl, Hb. split_and!.
  - rewrite batch_app. apply lookup_delete_eq.
  - apply lookup_delete_eq.
  - intros sort def Hdef k Hsome Hpath.
    rewrite batch_app in Hsome.
    change (batch ?m [DelOp rootSublevel filepath])
      with (delete (rootSublevel, filepath) m) in Hsome.
    rewrite lookup_delete_ne in Hsome by (unfold rootSublevel; congruence).
    rewrite batch_index_ops in Hsome.
    destruct (decide _) as [|Hnotin]; [by destruct Hsome|].
    apply Hnotin, elem_of_indexTargets. exists sort, def.
    split; [done|]. split; [done|].
    destruct (Hcons sort def Hdef k) as [Hfwd _].
    destruct (Hfwd (conj Hsome Hpath)) as (r & Hr & He).
    rewrite <- HlA, <- HlB, Hitem in Hr. by injection Hr as <-.
Qed.

End Overwrite.

(** ** Reading back what was written *)

Section RoundTrip.
Context `{Externals}.

(** A template name survives storage. *)
Lemma templateNameOf_json (p : payload) :
  templateNameOf (jsonPayload p) = templateNameOf p.
Proof.
  unfold templateNameOf. rewrite jsonPayload_lookup.
  destruct (p !! "_template") as [[]|]; done.
Qed.

(** Moving the body out, storing, and moving it back in gives the JSON
    form of the document, entry by entry. *)
Lemma body_round_trip (t t' : Template) (c : Collection) (extension : string)
    (d : payload) (k : string) :
  d !! "$_body" = None →
  find isBodyField (template_fields t') = find isBodyField (template_fields t) →
  (is_Some (find isBodyField (template_fields t)) →
   isMarkdownFormat (col_format c) = true →
   isMarkdownExtension extension = true) →
  readData t' extension (jsonPayload (writePayload t c d)) !! k
  = d !! k ≫= jsonValue.
Proof.
  intros Hbody Hfield Hext.
  assert (Hnone : jsonPayload d !! "$_body" = None)
    by by rewrite jsonPayload_lookup, Hbody.
  unfold readData, writePayload. rewrite Hfield.
  destruct (find isBodyField (template_fields t)) as [f|];
    [|apply jsonPayload_lookup].
  destruct (isMarkdownFormat (col_format c)) eqn:Hfmt.
  - rewrite Hext by (done || by eexists).
    set (b := js_get d (field_name f)).
    assert (Hb : d !! field_name f ≫= jsonValue = jsonValue b).
    { unfold b, js_get. by destruct (d !! field_name f). }
    set (J := jsonPayload (<["$_body" := b]> (delete (field_name f) d))).
    assert (HJ : J !! "$_body" = jsonValue b).
    { unfold J. by rewrite jsonPayload_lookup, lookup_insert_eq. }
    assert (HJk : ∀ k', k' ≠ "$_body" → k' ≠ field_name f →
                        J !! k' = d !! k' ≫= jsonValue).
    { intros k' H1 H2. unfold J.
      by rewrite jsonPayload_lookup, lookup_insert_ne, lookup_delete_ne. }
    assert (HJf : "$_body" ≠ field_name f → J !! field_name f = None).
    { intros Hne. unfold J.
      by rewrite jsonPayload_lookup, lookup_insert_ne, lookup_delete_eq. }
    rewrite HJ. destruct (jsonValue b) as [y|] eqn:Hy.
    + destruct (decide (k = field_name f)) as [->|Hne].
      * by rewrite lookup_insert_eq, Hb.
      * rewrite lookup_insert_ne by done.
        destruct (decide (k = "$_body")) as [->|Hk].
        -- by rewrite lookup_delete_eq, Hbody.
        -- rewrite lookup_delete_ne by done. by apply HJk.
    + destruct (decide (k = "$_body")) as [->|Hk].
      * by rewrite HJ, Hbody.
      * destruct (decide (k = field_name f)) as [->|Hne].
        -- rewrite HJf by done. by rewrite Hb.
        -- by apply HJk.
  - destruct (isMarkdownExtension extension);
      [rewrite Hnone|]; apply jsonPayload_lookup.
Qed.

Lemma withMetadata_other (c : Collection) (t : Template) (filepath : string)
    (data : payload) (k : string) :
  k ∉ metadataKeys → withMetadata c t filepath data !! k = data !! k.
Proof.
  intros Hk. unfold withMetadata, metadataKeys in *.
  rewrite !lookup_insert_ne; [done|..]; intros <-; apply Hk; set_solver.
Qed.

Lemma get_ok_inv (filepath : string) (db db' : Database) (r : payload) :
  get filepath db = (Ok r, db') →
  ∃ s rec c t,
    tinaSchema db' = Some s
    ∧ (∀ s0, tinaSchema db = Some s0 → s = s0)
    ∧ level db !! (rootSublevel, normalizePath filepath) = Some rec
    ∧ getCollectionAndTemplateByFullPath s filepath
        (templateNameOf (record_payload rec)) = Ok (c, t)
    ∧ r = withMetadata c t filepath
            (readData t (extname filepath) (record_payload rec)).
Proof.
  unfold get. destruct (isSystemFile filepath); [done|]. intros Hrun.
  apply bind_ok_inv in Hrun as (s & db1 & Hs & Hrun).
  apply bind_ok_inv in Hrun as (rec & db2 & Hrec & Hrun).
  apply bind_ok_inv in Hrun as ([c t] & db3 & Hct & [= <- <-]).
  apply lift_ok_inv in Hct as [Hct ->].
  unfold level_get in Hrec.
  destruct (level db1 !! (rootSublevel, normalizePath filepath))
    as [rec'|] eqn:Hl; [|done].
  injection Hrec as -> ->.
  apply getSchema_frame in Hs as (Hlevel & _ & _ & _ & Hsome & Hcached).
  exists s, rec, c, t. split_and!; try done.
  - by apply Hsome.
  - intros s0 Hs0. destruct (Hcached s0 Hs0) as [[= ->] _]. done.
  - by rewrite <- Hlevel.
Qed.

(** C9 (amended).  When [put(p, d)] succeeds and [get(p)] then returns
    [r], for a document that does not itself use the reserved key
    [$_body] and that the schema tools resolve on read as on write:
    [r] carries the five added properties [_collection],
    [_keepTemplateKey], [_template], [_relativePath] and [_id]; and
    under every other key [r] holds exactly what [d] holds there, in
    the JSON form in which the store keeps it, the body field included:
    no other field is added, and none is dropped except one whose value
    is [undefined], which the store does not keep. *)
Theorem get_after_put (filepath : string) (d : payload)
    (collection : option string) (db0 db1 db2 : Database) (r : payload) :
  put filepath d collection db0 = (Ok true, db1) →
  get filepath db1 = (Ok r, db2) →
  d !! "$_body" = None →
  readsAsWritten filepath d db1 →
  (∃ c t,
     r !! "_collection" = Some (VStr (col_name c))
     ∧ r !! "_keepTemplateKey"
         = Some (VBool (bool_decide (is_Some (col_templates c))))
     ∧ r !! "_template" = Some (optStr (lastItem (template_namespace t)))
     ∧ r !! "_relativePath"
         = Some (VStr (strip_slashes (remove_first (col_path c) filepath)))
     ∧ r !! "_id" = Some (VStr filepath))
  ∧ (∀ k, k ∉ metadataKeys → r !! k = d !! k ≫= jsonValue).
Proof.
  intros Hput Hget Hbody Hcoh.
  apply put_ok_inv in Hput
    as (defs & dbA & sf & dbB & putOps & delOps & _ & Hsf & _ & _ & Hdb1).
  apply stringifyFile_inv in Hsf
    as (_ & _ & _ & s & c & info & t & Hs & Hcol & Hinfo & Ht & Hpay).
  assert (Hs1 : tinaSchema db1 = Some s) by by rewrite Hdb1.
  assert (Hrec : level db1 !! (rootSublevel, normalizePath filepath)
                 = Some (RDoc (jsonPayload (sf_payload sf)))).
  { rewrite Hdb1. cbv [level set_level set_bridge].
    apply write_batch_primary. }
  clear Hdb1.
  apply get_ok_inv in Hget
    as (s' & rec & c' & t' & _ & Hsame & Hrec' & Hct & ->).
  rewrite Hrec in Hrec'. injection Hrec' as <-.
  rewrite (Hsame s Hs1) in Hct. simpl in Hct.
  rewrite templateNameOf_json, Hpay in Hct.
  destruct (Hcoh s c info t c' t' Hs1 Hcol Hinfo Ht Hct) as [Hfield Hext].
  simpl. rewrite Hpay.
  split.
  - exists c', t'. unfold withMetadata.
    split_and!; by simplify_map_eq.
  - intros k Hk. rewrite withMetadata_other by done.
    by apply body_round_trip.
Qed.

End RoundTrip.

(** * Concrete runs *)

(** A run is its result paired with the state it ends in; a result
    that is not a throw is [Ok] of what it holds, and likewise for an
    option that is not empty. *)
Lemma run_eta {S A : Type} (x : Res A * S) (r : Res A) :
  x.1 = r → x = (r, x.2).
Proof. destruct x. simpl. by intros ->. Qed.

Lemma ok_eta {A : Type} (x : Res A) (d : A) :
  match x with Ok _ => true | Throw _ => false end = true →
  x = Ok (match x with Ok a => a | Throw _ => d end).
Proof. by destruct x. Qed.

Lemma some_eta {A : Type} (x : option A) (d : A) :
  match x with Some _ => true | None => false end = true →
  x = Some (default d x).
Proof. by destruct x. Qed.

Lemma put_old_ok : put pA dOld (Some "posts") emptyDb = (Ok true, dbOld).
Proof. unfold dbOld. apply run_eta. by vm_compute. Qed.




(** The demo codec reads a stored payload as it reads the payload that
    was written. *)
Lemma demo_keys_survive (defs : gmap string IndexDefinition) :
  keysSurviveStorage defs.
Proof.
  intros sort def data path _. unfold indexEntry.
  destruct (String.eqb sort DEFAULT_COLLECTION_SORT_KEY); [done|].
  assert (Hget : ∀ f, encodeDemo f (js_get (jsonPayload data) (ix_name f))
                      = encodeDemo f (js_get data (ix_name f))).
  { intros f. unfold js_get. rewrite jsonPayload_lookup.
    by destruct (data !! ix_name f) as [[]|]. }
  assert (Hpresent : ∀ n, presentValue (jsonPayload data !! n)
                          = presentValue (data !! n)).
  { intros n. rewrite jsonPayload_lookup.
    by destruct (data !! n) as [[]|]. }
  assert (Hhas : hasIndexValue def (jsonPayload data) = hasIndexValue def data).
  { simpl. unfold hasDemoValue. f_equal.
    - induction (fields def) as [|f fs IH]; simpl; [done|].
      by rewrite Hpresent, IH.
    - do 3 f_equal. apply map_ext. intros f. apply Hget. }
  assert (Hholds : hasIndexValue def data = true →
                   holdsFields def data = true
                   ∧ holdsFields def (jsonPayload data) = true).
  { simpl. unfold hasDemoValue, holdsFields.
    intros [Hall _]%andb_true_iff. revert Hall.
    induction (fields def) as [|f fs IH]; simpl; [done|].
    intros [Hf Hfs]%andb_true_iff. destruct (IH Hfs) as [-> ->].
    rewrite jsonPayload_lookup.
    by destruct (data !! ix_name f) as [[]|]. }
  rewrite Hhas. destruct (hasIndexValue def data);
    [|by rewrite !andb_false_r].
  destruct (Hholds eq_refl) as [-> ->]. simpl.
  f_equal. unfold indexKey.
  induction (fields def) as [|f fs IH]; [done|].
  cbn [foldr]. rewrite IH. f_equal. apply Hget.
Qed.

(** ** C1 *)


(** The scenario of the overwrite: [rank] 2, then [rank] 9 at the same
    path.  The [rank] index holds one entry, positioned at 9, and the
    default index holds the path. *)
Example rank_index_after_overwrite :
  sublevelKeys dbNew ["posts"; "rank"]
  = [indexKey (singleColumnIndex rankField) dNew pA]
  ∧ indexKey (singleColumnIndex rankField) dNew pA
    = "0009" +:+ String separator pA
  ∧ sublevelKeys dbNew ["posts"; DEFAULT_COLLECTION_SORT_KEY] = [pA].
Proof. by vm_compute. Qed.


(** ** C2 *)

(** C2 (the code departs from the claim).  After [clearCache] the schema
    cache and the lookup cache are empty and [getSchema] reloads the
    changed schema, but [getIndexDefinitions] still answers with the
    table memoized before: it has the definitions of [posts] and none
    for [pages], where a database that builds them from the changed
    schema has the opposite. *)
Theorem clearCache_keeps_index_definitions :
  tinaSchema dbChanged = None
  ∧ _lookup dbChanged = None
  ∧ (getSchema dbChanged).1 = Ok {| schema_collections := [pages] |}
  ∧ (getIndexDefinitions dbChanged).1 = (getIndexDefinitions emptyDb).1
  ∧ is_Some (definitionAt dbChanged "posts" "rank")
  ∧ definitionAt dbChanged "pages" "title" = None
  ∧ definitionAt dbFresh "posts" "rank" = None
  ∧ is_Some (definitionAt dbFresh "pages" "title").
Proof.
  split_and!.
  - done.
  - done.
  - vm_compute. reflexivity.
  - vm_compute. reflexivity.
  - eexists. vm_compute. reflexivity.
  - vm_compute. reflexivity.
  - vm_compute. reflexivity.
  - eexists. vm_compute. reflexivity.
Qed.

(** ** C3 *)


(** The table built for [catalog]: the declared index [rank] stands
    where the single-column index of the field [rank] would, the
    declared [by-title] is added, and the field [title] keeps its
    single-column index. *)
Example declared_indexes_of_catalog :
  definitionAt dbCatalog "catalog" "rank"
    = Some {| fields :=
                [ {| ix_name := "title"; ix_type := Some TString;
                     ix_pad := None |};
                  {| ix_name := "rank"; ix_type := Some TNumber;
                     ix_pad := None |} ] |}
  ∧ definitionAt dbCatalog "catalog" "by-title"
    = Some {| fields :=
                [ {| ix_name := "title"; ix_type := Some TString;
                     ix_pad := None |} ] |}
  ∧ definitionAt dbCatalog "catalog" "title"
    = Some (singleColumnIndex titleField)
  ∧ definitionAt dbCatalog "catalog" DEFAULT_COLLECTION_SORT_KEY
    = Some {| fields := [] |}.
Proof. by vm_compute. Qed.


(** ** C4 *)

(** C4, as stated, fails when the callback throws on [complete]: the
    body of [indexContentByPaths] succeeds, [complete] is emitted, and
    the callback's own failure then makes the same run emit [failed]. *)
Lemma complete_then_failed :
  (operationBody (IndexContentByPaths []) emptyDb).1 = Ok []
  ∧ (indexContentByPaths failingOnComplete [] (emptyDb, [])).2.2
    = [inprogressEvent; completeEvent;
       failedEvent (JsError "status sink unavailable")].
Proof. by vm_compute. Qed.

(** The status theorem at [indexContentByPaths] of one stored document,
    with the default callback. *)
Lemma status_events_witness :
  ∃ db3,
    runOperation defaultStatusCallback (IndexContentByPaths [pA]) (dbOld, [])
    = (Ok tt, (db3, [inprogressEvent; completeEvent])).
Proof.
  assert (Hcb : callbackReturns defaultStatusCallback) by done.
  pose proof (status_events defaultStatusCallback (IndexContentByPaths [pA])
                dbOld [] Hcb) as Hrun.
  assert (Hbody : (operationBody (IndexContentByPaths [pA])
                     (defaultStatusCallback inprogressEvent dbOld).2).1
                  = Ok [PutOp ["posts"; DEFAULT_COLLECTION_SORT_KEY] pA (RDoc ∅);
                        PutOp rootSublevel pA (RDoc ∅)]) by by vm_compute.
  destruct (operationBody (IndexContentByPaths [pA])
              (defaultStatusCallback inprogressEvent dbOld).2) as [[ops|e] db2];
    [exact Hrun|discriminate Hbody].
Defined.

(** ** C5 *)

(** C5, as stated, fails for [first = 0]: the value is supplied, so
    [first ?? last ?? 50] is 0, but the limit in force is 50. *)
Lemma zero_first_is_not_the_limit :
  nullishLimit (Some 0%Z) None = 0%Z ∧ queryLimit (Some 0%Z) None = 50%Z.
Proof. done. Qed.

(** The limit theorem at [first = -1], scanning one [rank] entry. *)
Lemma effective_limit_witness :
  queryLimit (Some (-1)%Z) None = (-1)%Z
  ∧ ∃ st',
      scan (Some (singleColumnIndex rankField)) (Some rankSuffixes) []
           (queryLimit (Some (-1)%Z) None) false
           [(indexKey (singleColumnIndex rankField) dOld pA, RDoc ∅)]
           initialScan dbOld = (Ok st', dbOld)
      ∧ hasNextPage st' = false
      ∧ hasPreviousPage st' = false
      ∧ edges st' =
          [] ++ omap (candidateEdge (Some (singleColumnIndex rankField))
                                    (Some rankSuffixes) [] dbOld)
                     [(indexKey (singleColumnIndex rankField) dOld pA, RDoc ∅)].
Proof.
  destruct (effective_limit (Some (-1)%Z) None) as (Hfirst & _ & _ & Hscan).
  split; [by apply Hfirst|].
  apply (Hscan eq_refl (Some (singleColumnIndex rankField)) (Some rankSuffixes)
           [] false _ initialScan dbOld).
  intros item Hin. apply list_elem_of_singleton in Hin as ->.
  by eexists.
Defined.

(** ** C6 *)

(** C6, as stated, fails when both cursors are supplied: [before] is
    ignored, [lt] stays unset and the upper bound is the inclusive
    fallback. *)
Lemma before_ignored_with_after :
  it_gt (queryBounds bothCursors None) = Some (atob "cursor-a")
  ∧ it_lt (queryBounds bothCursors None) ≠ Some (atob "cursor-b")
  ∧ it_lt (queryBounds bothCursors None) = None
  ∧ it_lte (queryBounds bothCursors None) = Some MAX_BYTE.
Proof. done. Qed.

(** ** C8 *)

(** C8, as stated, fails when the hydrator throws a value that is not an
    [Error]: for an ordinary document path the value is re-raised as it
    is, not wrapped. *)
Lemma non_error_not_wrapped :
  string_includes GRAPHQL_CONFIG_PATH pA = false
  ∧ hydrateEdge (N := payload) (λ _, throw (NonError (VStr "boom"))) "posts"
      {| cursor := "k"; edge_path := pA |} emptyDb
    = (Throw (NonError (VStr "boom")), emptyDb)
  ∧ hydrateEdge (N := payload) (λ _, throw (NonError (VStr "boom"))) "posts"
      {| cursor := "k"; edge_path := pA |} emptyDb
    ≠ (Throw (TinaQueryError (NonError (VStr "boom")) pA "posts"), emptyDb).
Proof.
  assert (Hrun :
    hydrateEdge (N := payload) (λ _, throw (NonError (VStr "boom"))) "posts"
      {| cursor := "k"; edge_path := pA |} emptyDb
    = (Throw (NonError (VStr "boom")), emptyDb)) by done.
  split_and!; [by vm_compute|exact Hrun|].
  rewrite Hrun. intros Heq. discriminate Heq.
Qed.

(** Of the generated config files only [_graphql.json] is exempt: a
    failure at [_schema.json] is wrapped like any other. *)
Lemma generated_schema_file_wrapped :
  hydrateEdge (N := payload) (λ _, throw (JsError "boom")) "posts"
    {| cursor := "k"; edge_path := ".tina/__generated__/_schema.json" |}
    emptyDb
  = (Throw (TinaQueryError (JsError "boom")
              ".tina/__generated__/_schema.json" "posts"), emptyDb).
Proof. done. Qed.

(** The hydration theorem at a hydrator that throws an [Error]. *)
Lemma hydration_failure_witness :
  hydrateEdge (N := payload) (λ _, throw (JsError "boom")) "posts"
    {| cursor := "k"; edge_path := pA |} emptyDb
  = (Throw (TinaQueryError (JsError "boom") pA "posts"), emptyDb).
Proof.
  exact (hydration_failure (N := payload) (λ _, throw (JsError "boom"))
           "posts" {| cursor := "k"; edge_path := pA |} emptyDb emptyDb
           (JsError "boom") eq_refl).
Defined.

(** ** C9 *)

(** C9, as stated, fails on the added properties: what [get] returns
    after [put] has [_keepTemplateKey], which the document did not have
    and which is not one of the four listed metadata fields. *)
Lemma keepTemplateKey_added :
  put pA dOld (Some "posts") emptyDb = (Ok true, dbOld)
  ∧ dOld !! "_keepTemplateKey" = None
  ∧ ("_keepTemplateKey" ∉ specMetadataKeys)
  ∧ propertyOf (get pA dbOld).1 "_keepTemplateKey" = Some (VBool false).
Proof.
  split_and!; [exact put_old_ok|by vm_compute| |by vm_compute].
  unfold specMetadataKeys. rewrite !not_elem_of_cons.
  split_and!; try done. apply not_elem_of_nil.
Qed.

(** A markdown document written without its body field: the store does
    not keep the [undefined] that [stringifyFile] puts under [$_body],
    and what [get] returns has no body field, as the document had
    none. *)
Example absent_body_stays_absent :
  put pA dBare (Some "posts") emptyDb = (Ok true, dbBare)
  ∧ (get pA dbBare).1 = Ok docBare
  ∧ docBare !! "body" = None
  ∧ docBare !! "$_body" = None
  ∧ docBare !! "rank" = Some (VNum 2).
Proof.
  split_and!.
  - unfold dbBare. apply run_eta. by vm_compute.
  - unfold docBare. apply ok_eta. by vm_compute.
  - by vm_compute.
  - by vm_compute.
  - by vm_compute.
Qed.

(** A field holding [undefined] is not kept by the store: what [get]
    returns has no such field. *)
Example undefined_field_not_kept :
  put pA dUndefined (Some "posts") emptyDb = (Ok true, dbUndefined)
  ∧ dUndefined !! "title" = Some VUndef
  ∧ (get pA dbUndefined).1 = Ok docUndefined
  ∧ docUndefined !! "title" = None
  ∧ docUndefined !! "rank" = Some (VNum 2)
  ∧ docUndefined !! "body" = Some (VStr "old").
Proof.
  split_and!.
  - unfold dbUndefined. apply run_eta. by vm_compute.
  - by vm_compute.
  - unfold docUndefined. apply ok_eta. by vm_compute.
  - by vm_compute.
  - by vm_compute.
  - by vm_compute.
Qed.

(** ** C10 *)

(** The system-file theorem at [_schema]. *)
Lemma system_files_rejected_witness :
  get "_schema" dbOld
    = (Throw (JsError "Unexpected get for config file _schema"), dbOld)
  ∧ stringifyFile "_schema" dOld dbOld
    = (Throw (JsError "Unexpected put for config file _schema"), dbOld)
  ∧ put "_schema" dOld (Some "posts") dbOld
    = (Throw (TinaFetchError "Error in PUT for _schema"
                (JsError "Unexpected put for config file _schema")
                "_schema" (Some "posts")), dbOld).
Proof.
  apply (system_files_rejected "_schema" dOld (Some "posts") dbOld).
  unfold SYSTEM_FILES. by left.
Defined.

(** The round-trip theorem at the first write of the demo document. *)
Lemma get_after_put_witness :
  (∃ c t,
     docOld !! "_collection" = Some (VStr (col_name c))
     ∧ docOld !! "_keepTemplateKey"
         = Some (VBool (bool_decide (is_Some (col_templates c))))
     ∧ docOld !! "_template" = Some (optStr (lastItem (template_namespace t)))
     ∧ docOld !! "_relativePath"
         = Some (VStr (strip_slashes (remove_first (col_path c) pA)))
     ∧ docOld !! "_id" = Some (VStr pA))
  ∧ (∀ k, k ∉ metadataKeys → docOld !! k = dOld !! k ≫= jsonValue).
Proof.
  apply (get_after_put pA dOld (Some "posts") emptyDb dbOld
           (get pA dbOld).2 docOld).
  - exact put_old_ok.
  - apply run_eta. unfold docOld. apply ok_eta. by vm_compute.
  - by vm_compute.
  - intros s c info t c' t' Hs Hc Hinfo Ht Hct.
    vm_compute in Hs. injection Hs as <-.
    vm_compute in Hc. injection Hc as <-.
    vm_compute in Hinfo. injection Hinfo as <-.
    vm_compute in Ht. injection Ht as <-.
    vm_compute in Hct. injection Hct as <- <-.
    split; [done|]. intros _ _. by vm_compute.
Defined.

(** ** C7 *)

(** C7 (the code departs from the claim).  [put] keys the index entries
    of a document by its normalized path; [delete] builds its del-ops
    from the path as given.  For a path that normalization changes, the
    batch of [delete] removes the primary record and misses every index
    entry of the document, which stay behind as orphans;
    [deleteContentByPaths], which builds the del-ops from the
    normalized key, removes them. *)
Theorem delete_leaves_index_entries :
  put pW dOld (Some "posts") emptyDb = (Ok true, dbW)
  ∧ normalizePath pW = pA
  ∧ level dbW !! (rootSublevel, pA) = Some (RDoc (writePayload
        {| template_namespace := ["posts"];
           template_fields := [rankField; titleField; bodyField] |}
        posts dOld))
  ∧ delete_ pW dbW = (Ok tt, dbDeleted)
  ∧ level dbDeleted !! (rootSublevel, pA) = None
  ∧ bridge dbDeleted !! pA = None
  ∧ level dbDeleted !! (["posts"; "rank"],
                        indexKey (singleColumnIndex rankField) dOld pA)
      = Some (RDoc ∅)
  ∧ level dbDeleted !! (["posts"; DEFAULT_COLLECTION_SORT_KEY], pA)
      = Some (RDoc ∅)
  ∧ level dbDeletedByPaths !! (["posts"; "rank"],
                               indexKey (singleColumnIndex rankField) dOld pA)
      = None
  ∧ level dbDeletedByPaths !! (["posts"; DEFAULT_COLLECTION_SORT_KEY], pA)
      = None.
Proof.
  split_and!.
  - unfold dbW. apply run_eta. by vm_compute.
  - by vm_compute.
  - vm_compute. reflexivity.
  - unfold dbDeleted. apply run_eta. by vm_compute.
  - by vm_compute.
  - by vm_compute.
  - by vm_compute.
  - by vm_compute.
  - by vm_compute.
  - by vm_compute.
Qed.

(** * Further properties *)

(** ** Chunked batches *)

Section ChunkedBatches.
Context `{Externals}.

Lemma set_level_same (db : Database) (f : Level → Level) :
  f (level db) = level db → set_level f db = db.
Proof. destruct db. unfold set_level. simpl. by intros ->. Qed.

Lemma set_level_ext (db : Database) (f g : Level → Level) :
  f (level db) = g (level db) → set_level f db = set_level g db.
Proof. unfold set_level. by intros ->. Qed.

(** The flush loop hands a prefix of the buffer to the store, in order
    and in one piece per round, and gives back the rest. *)
Lemma drain_effect (fuel threshold : nat) (operations : list BatchOp)
    (db : Database) :
  1 ≤ threshold → List.length operations ≤ fuel →
  ∃ flushed rest,
    operations = flushed ++ rest
    ∧ List.length rest < threshold
    ∧ drain fuel threshold operations db
      = (Ok rest, set_level (λ l, batch l flushed) db).
Proof.
  intros Ht. revert operations db.
  induction fuel as [|fuel IH]; intros operations db Hlen.
  - exists [], operations. split; [done|]. split; [lia|].
    simpl. by rewrite set_level_same.
  - simpl. destruct (decide (threshold ≤ List.length operations)) as [Hge|Hlt].
    + cbv [bind level_batch modify].
      destruct (IH (drop 25 operations)
                   (set_level (λ l, batch l (take 25 operations)) db))
        as (flushed & rest & Hsplit & Hrest & Hrun).
      { rewrite length_drop. lia. }
      exists (take 25 operations ++ flushed), rest.
      split; [by rewrite <- app_assoc, <- Hsplit, take_drop|].
      split; [done|]. rewrite Hrun. f_equal.
      unfold set_level. simpl. by rewrite batch_app.
    + exists [], operations. split; [done|]. split; [lia|].
      by rewrite set_level_same.
Qed.

Lemma enqueueOps_effect (operations ops : list BatchOp) (db : Database) :
  ∃ flushed rest,
    operations ++ ops = flushed ++ rest
    ∧ List.length rest < 25
    ∧ enqueueOps operations ops db
      = (Ok rest, set_level (λ l, batch l flushed) db).
Proof. unfold enqueueOps. apply drain_effect; lia. Qed.

Lemma flushOps_effect (operations : list BatchOp) (db : Database) :
  flushOps operations db = (Ok tt, set_level (λ l, batch l operations) db).
Proof.
  unfold flushOps.
  destruct (drain_effect (List.length operations) 1 operations db)
    as (flushed & rest & Hsplit & Hrest & Hrun); [lia..|].
  rewrite (bind_ok _ _ _ _ _ Hrun).
  destruct rest; [|simpl in Hrest; lia].
  rewrite app_nil_r in Hsplit. by subst flushed.
Qed.

(** X1.  Enqueueing operations and flushing what is left applies exactly
    the buffered and the new operations to the store, in their order,
    however the rounds of 25 cut them; after an enqueue fewer than 25
    operations are pending. *)
Theorem chunked_batches_apply_all (buffer ops : list BatchOp) (db : Database) :
  ∃ rest db1,
    enqueueOps buffer ops db = (Ok rest, db1)
    ∧ List.length rest < 25
    ∧ flushOps rest db1
      = (Ok tt, set_level (λ l, batch l (buffer ++ ops)) db).
Proof.
  destruct (enqueueOps_effect buffer ops db)
    as (flushed & rest & Hsplit & Hrest & Hrun).
  exists rest, (set_level (λ l, batch l flushed) db).
  split; [done|]. split; [done|].
  rewrite flushOps_effect. f_equal.
  unfold set_level. simpl. by rewrite Hsplit, batch_app.
Qed.

End ChunkedBatches.

(** ** Pages of a query *)

Section Pages.
Context `{Externals}.

Lemma limitReached_spec (limit : Z) (st : ScanState) :
  limit ≠ (-1)%Z →
  limitReached limit st = true ↔ (limit ≤ Z.of_nat (List.length (edges st)))%Z.
Proof.
  intros Hl. unfold limitReached.
  destruct (Z.eqb_spec limit (-1)) as [|_]; [done|]. simpl.
  apply Z.leb_le.
Qed.

(** The loop from any state: it appends candidates while there is room
    below the limit, and raises the flag of its direction exactly when a
    candidate turns up after the room is used. *)
Lemma scan_from indexDefinition filterSuffixes filterChain (limit : Z)
    (reverse : bool) (items : list (string * record)) (st : ScanState)
    (db : Database) :
  limit ≠ (-1)%Z →
  (∀ item, item ∈ items →
     ∃ o, candidate indexDefinition filterSuffixes filterChain db item = Ok o) →
  let cands :=
    omap (candidateEdge indexDefinition filterSuffixes filterChain db) items in
  let room := Z.to_nat (limit - Z.of_nat (List.length (edges st))) in
  ∃ st',
    scan indexDefinition filterSuffixes filterChain limit reverse items st db
      = (Ok st', db)
    ∧ edges st' = edges st ++ take room cands
    ∧ hasNextPage st' =
        (hasNextPage st || negb reverse && bool_decide (room < List.length cands))
    ∧ hasPreviousPage st' =
        (hasPreviousPage st || reverse && bool_decide (room < List.length cands)).
Proof.
  intros Hl. revert st. induction items as [|[key val] rest IH]; intros st Hall.
  - exists st. simpl. rewrite take_nil, app_nil_r.
    by rewrite !andb_false_r, !orb_false_r.
  - assert (Hrest : ∀ item, item ∈ rest →
      ∃ o, candidate indexDefinition filterSuffixes filterChain db item = Ok o).
    { intros item Hin. apply Hall. by right. }
    destruct (Hall (key, val)) as [o Ho]; [by left|].
    assert (Hce : candidateEdge indexDefinition filterSuffixes filterChain db
                    (key, val) = o)
      by (unfold candidateEdge; by rewrite Ho).
    cbn [omap list_omap]. rewrite Hce. clear Hce.
    cbn [scan]. unfold candidate in Ho. simpl in Ho.
    destruct (valuesRegexExec indexDefinition key) as [groups|] eqn:Hre.
    + pose proof (filterSubject_state indexDefinition filterSuffixes groups
                    (default "" (groups !! "_filepath_")) val db) as Hst.
      unfold bind at 1.
      destruct (filterSubject indexDefinition filterSuffixes groups
                  (default "" (groups !! "_filepath_")) val db)
        as [[subject|e] db1]; simpl in Hst; subst db1; [|discriminate].
      injection Ho as <-.
      destruct (makeFilter filterChain subject); cbn [negb].
      * destruct (limitReached limit st) eqn:Hreached.
        -- apply limitReached_spec in Hreached; [|done].
           exists (stopAtLimit reverse st). split; [done|].
           replace (Z.to_nat (limit - Z.of_nat (List.length (edges st))))
             with 0 by lia.
           rewrite bool_decide_eq_true_2 by (simpl; lia).
           rewrite take_0, app_nil_r.
           unfold stopAtLimit. by destruct reverse; simpl;
             rewrite ?orb_true_r, ?orb_false_r.
        -- assert (Hroom : (Z.of_nat (List.length (edges st)) < limit)%Z).
           { destruct (Z.le_gt_cases limit (Z.of_nat (List.length (edges st))))
               as [Hle|Hgt]; [|lia].
             apply limitReached_spec in Hle; [congruence|done]. }
           destruct (IH (appendEdge key (default "" (groups !! "_filepath_")) st)
                       Hrest) as (st' & Hscan & He & Hn & Hp).
           exists st'. split; [done|].
           simpl in He, Hn, Hp. rewrite length_app in He, Hn, Hp.
           simpl in He, Hn, Hp.
           remember (Z.to_nat (limit - Z.of_nat (List.length (edges st))))
             as room eqn:Hroomdef.
           replace (Z.to_nat
                      (limit - Z.of_nat (List.length (edges st) + 1)))
             with (room - 1) in He, Hn, Hp by lia.
           destruct room as [|r]; [lia|].
           replace (S r - 1) with r in He, Hn, Hp by lia.
           cbn [take List.length].
           rewrite He, Hn, Hp, <- app_assoc. split; [done|].
           split; do 2 f_equal; apply bool_decide_ext; lia.
      * apply IH, Hrest.
    + injection Ho as <-. apply IH, Hrest.
Qed.

(** X2.  A scan under a limit other than -1, over items none of whose
    lookups fails, returns the first [limit] matching candidates in
    iteration order (none for a negative limit) and sets [hasNextPage]
    (forward) or [hasPreviousPage] (reverse) exactly when more
    candidates matched than the limit admits. *)
Theorem scan_page indexDefinition filterSuffixes filterChain (limit : Z)
    (reverse : bool) (items : list (string * record)) (db : Database) :
  limit ≠ (-1)%Z →
  (∀ item, item ∈ items →
     ∃ o, candidate indexDefinition filterSuffixes filterChain db item = Ok o) →
  ∃ st',
    scan indexDefinition filterSuffixes filterChain limit reverse items
         initialScan db = (Ok st', db)
    ∧ edges st' =
        take (Z.to_nat limit)
          (omap (candidateEdge indexDefinition filterSuffixes filterChain db)
                items)
    ∧ hasNextPage st' =
        (negb reverse &&
         bool_decide (Z.to_nat limit <
           List.length (omap (candidateEdge indexDefinition filterSuffixes
                                            filterChain db) items)))
    ∧ hasPreviousPage st' =
        (reverse &&
         bool_decide (Z.to_nat limit <
           List.length (omap (candidateEdge indexDefinition filterSuffixes
                                            filterChain db) items))).
Proof.
  intros Hl Hall.
  destruct (scan_from indexDefinition filterSuffixes filterChain limit reverse
              items initialScan db Hl Hall) as (st' & Hscan & He & Hn & Hp).
  exists st'. simpl in He, Hn, Hp. rewrite Z.sub_0_r in He, Hn, Hp.
  by rewrite Hscan, He, Hn, Hp.
Qed.

End Pages.

Section PageInfo.
Context `{Externals}.

Lemma pageState_append (limit : Z) (reverse : bool) (st : ScanState)
    (key filepath : string) :
  key ≠ "" → limitReached limit st = false →
  pageState limit reverse st →
  pageState limit reverse (appendEdge key filepath st).
Proof.
  intros Hkey Hroom (Hbound & Hne & Hstart & Hend & Hn & Hp).
  unfold pageState, appendEdge. simpl. split_and!; try done.
  - destruct (decide (limit = (-1)%Z)) as [|Hl]; [by left|]. right.
    rewrite length_app. simpl.
    destruct (Z.le_gt_cases limit (Z.of_nat (List.length (edges st))))
      as [Hle|Hgt]; [|lia].
    apply limitReached_spec in Hle; [congruence|done].
  - apply Forall_app. split; [done|]. by apply Forall_singleton.
  - rewrite fmap_app. simpl. rewrite Hstart.
    destruct (edges st) as [|e es]; simpl.
    + done.
    + apply Forall_cons in Hne as [He _].
      by destruct (String.eqb_spec (cursor e) "").
  - rewrite fmap_app. simpl. by rewrite last_snoc.
Qed.

Lemma scan_keeps_pageState indexDefinition filterSuffixes filterChain
    (limit : Z) (reverse : bool) (items : list (string * record))
    (st st' : ScanState) (db db' : Database) :
  (∀ key groups, valuesRegexExec indexDefinition key = Some groups → key ≠ "") →
  scan indexDefinition filterSuffixes filterChain limit reverse items st db
    = (Ok st', db') →
  pageState limit reverse st →
  pageState limit reverse st' ∧ db' = db.
Proof.
  intros Hne. revert st. induction items as [|[key val] rest IH];
    intros st Hscan Hst.
  - by injection Hscan as <- <-.
  - cbn [scan] in Hscan.
    destruct (valuesRegexExec indexDefinition key) as [groups|] eqn:Hre;
      [|by apply (IH st)].
    apply bind_ok_inv in Hscan as (subject & db1 & Hsub & Hscan).
    pose proof (filterSubject_state indexDefinition filterSuffixes groups
                  (default "" (groups !! "_filepath_")) val db) as Hdb.
    rewrite Hsub in Hdb. simpl in Hdb. subst db1.
    destruct (makeFilter filterChain subject); cbn [negb] in Hscan;
      [|by apply (IH st)].
    destruct (limitReached limit st) eqn:Hreached.
    + injection Hscan as <- <-. split; [|done].
      destruct Hst as (Hbound & Hcur & Hstart & Hend & Hn & Hp).
      unfold pageState, stopAtLimit.
      destruct reverse; simpl; split_and!; done.
    + apply (IH _ Hscan). apply pageState_append; [|done..].
      by apply (Hne key groups).
Qed.

Lemma pageState_initial (limit : Z) (reverse : bool) :
  pageState limit reverse initialScan.
Proof.
  unfold pageState, initialScan. simpl. split_and!; try done.
  destruct (decide (limit = (-1)%Z)); [by left|right; lia].
Qed.

Lemma hydrated_cursors {N : Type} (hydrator : string → M N)
    (collection : string) (es : list Edge) (db db' : Database)
    (hs : list (N * string)) :
  sequential es (hydrateEdge hydrator collection) db = (Ok hs, db') →
  hs.*2 = (λ e, btoa (cursor e)) <$> es.
Proof.
  revert db hs. induction es as [|e es IH]; intros db hs Hrun.
  - by injection Hrun as <- <-.
  - simpl in Hrun.
    apply bind_ok_inv in Hrun as ([node c] & db1 & Hedge & Hrun).
    apply bind_ok_inv in Hrun as (hs' & db2 & Hrest & [= <- <-]).
    rewrite !fmap_cons, (IH _ _ Hrest). f_equal. simpl.
    unfold hydrateEdge in Hedge.
    apply try_catch_ok_inv in Hedge as [Hedge | (err & db3 & _ & Hthrow)].
    + by apply bind_ok_inv in Hedge as (node' & db3 & _ & [= _ <- _]).
    + by destruct (instanceofError err && _).
Qed.

Lemma fallbackBounds_reverse (filterSuffixes : option FilterSuffixes)
    (bounds : IteratorOptions) :
  it_reverse (fallbackBounds filterSuffixes bounds) = it_reverse bounds.
Proof.
  unfold fallbackBounds.
  destruct (negb (truthy_string (it_gt bounds)) &&
            negb (truthy_string (it_gte bounds))); simpl;
    by destruct (negb _ && negb _).
Qed.

Lemma queryBounds_reverse (queryOptions : QueryOptions)
    (filterSuffixes : option FilterSuffixes) :
  it_reverse (queryBounds queryOptions filterSuffixes)
  = truthy_number (q_last queryOptions).
Proof.
  unfold queryBounds. rewrite fallbackBounds_reverse. unfold cursorBounds.
  by destruct (truthy_string (q_after queryOptions)),
    (truthy_string (q_before queryOptions)).
Qed.

(** X3.  A page returned by [query], when every key the index pattern
    matches is non-empty: the edges carry the encoded keys of the page
    in order; [startCursor] and [endCursor] are the encoded first and
    last of these keys (the encoded empty string for an empty page);
    under a limit other than -1 there are at most [limit] edges; and
    [hasNextPage] can only be set on a forward query, [hasPreviousPage]
    only on a reverse one. *)
Theorem query_page {N : Type} (queryOptions : QueryOptions)
    (hydrator : string → M N) (db db' : Database) (res : QueryResult N) :
  (∀ indexDefinition key groups,
     valuesRegexExec indexDefinition key = Some groups → key ≠ "") →
  query queryOptions hydrator db = (Ok res, db') →
  let limit := queryLimit (q_first queryOptions) (q_last queryOptions) in
  ∃ keys : list string,
    (result_edges res).*2 = btoa <$> keys
    ∧ startCursor (pageInfo res) = btoa (default "" (head keys))
    ∧ endCursor (pageInfo res) = btoa (default "" (last keys))
    ∧ (limit ≠ (-1)%Z → List.length (result_edges res) ≤ Z.to_nat limit)
    ∧ (pi_hasNextPage (pageInfo res) = true →
       truthy_number (q_last queryOptions) = false)
    ∧ (pi_hasPreviousPage (pageInfo res) = true →
       truthy_number (q_last queryOptions) = true).
Proof.
  intros Hne Hrun limit. unfold query in Hrun.
  apply bind_ok_inv in Hrun as (table & db1 & _ & Hrun).
  destruct (table ≫= _) as [indexDefinitions|]; [|done].
  apply bind_ok_inv in Hrun as (lvl & db2 & [= <- <-] & Hrun).
  apply bind_ok_inv in Hrun as (st & db3 & Hscan & Hrun).
  apply bind_ok_inv in Hrun as (hs & db4 & Hhyd & [= <- <-]).
  rewrite queryBounds_reverse in Hscan.
  apply scan_keeps_pageState in Hscan as [Hst _];
    [|by intros key groups; apply Hne|apply pageState_initial].
  destruct Hst as (Hbound & _ & Hstart & Hend & Hn & Hp).
  apply hydrated_cursors in Hhyd.
  exists (cursor <$> edges st). simpl. split_and!.
  - by rewrite Hhyd, <- list_fmap_compose.
  - by rewrite Hstart.
  - by rewrite Hend.
  - intros Hl. destruct Hbound as [|Hbound]; [done|].
    rewrite <- (length_fmap snd), Hhyd, length_fmap. done.
  - done.
  - done.
Qed.

End PageInfo.

(** ** Readers and caches *)

Section Readers.
Context `{Externals}.

Lemma level_get_frame (sub : list string) (key : string) (db : Database) :
  (level_get sub key db).2 = db.
Proof. unfold level_get. by destruct (level db !! (sub, key)). Qed.

Lemma stringifyFile_frame (filepath : string) (data : payload)
    (db db' : Database) (r : Res StringifiedFile) :
  stringifyFile filepath data db = (r, db') →
  level db' = level db ∧ bridge db' = bridge db
  ∧ collectionIndexDefinitions db' = collectionIndexDefinitions db.
Proof.
  unfold stringifyFile. destruct (isSystemFile filepath); [by intros [= <- <-]|].
  cbv [bind lift ret throw].
  destruct (getSchema db) as [[s|e] db1] eqn:Hs;
    apply getSchema_frame in Hs as (Hl & Hb & Hc & _);
    [|by intros [= <- <-]].
  destruct (getCollectionByFullPath s filepath) as [c|e];
    [|by intros [= <- <-]].
  destruct (getTemplatesForCollectable s c) as [info|e];
    [|by intros [= <- <-]].
  destruct (resolveTemplate info data) as [t|e]; [|by intros [= <- <-]].
  destruct c as [c|]; [|by intros [= <- <-]].
  by destruct (stringifyFileFormat _ _ _); intros [= <- <-].
Qed.

Lemma get_frame (filepath : string) (db db' : Database) (r : Res payload) :
  get filepath db = (r, db') →
  level db' = level db ∧ bridge db' = bridge db
  ∧ collectionIndexDefinitions db' = collectionIndexDefinitions db.
Proof.
  unfold get. destruct (isSystemFile filepath); [by intros [= <- <-]|].
  cbv [bind lift ret throw level_get].
  destruct (getSchema db) as [[s|e] db1] eqn:Hs;
    apply getSchema_frame in Hs as (Hl & Hb & Hc & _);
    [|by intros [= <- <-]].
  destruct (level db1 !! (rootSublevel, normalizePath filepath)) as [rec|];
    [|by intros [= <- <-]].
  by destruct (getCollectionAndTemplateByFullPath s filepath _);
    intros [= <- <-].
Qed.

(** A path with no primary record cannot be read. *)
Lemma get_missing (filepath : string) (db : Database) :
  level db !! (rootSublevel, normalizePath filepath) = None →
  ∃ e db', get filepath db = (Throw e, db').
Proof.
  intros Hnone. unfold get.
  destruct (isSystemFile filepath); [by eexists _, _|].
  cbv [bind lift ret throw level_get].
  destruct (getSchema db) as [[s|e] db1] eqn:Hs;
    apply getSchema_frame in Hs as (Hl & _); [|by eexists _, _].
  rewrite Hl, Hnone. by eexists _, _.
Qed.

Lemma sequential_frame {A B : Type} (callback : A → M B) (items : list A)
    (db db' : Database) (r : Res (list B)) :
  (∀ x d, level (callback x d).2 = level d ∧ bridge (callback x d).2 = bridge d) →
  sequential items callback db = (r, db') →
  level db' = level db ∧ bridge db' = bridge db.
Proof.
  intros Hcb. revert db db' r.
  induction items as [|x items IH]; intros db db' r.
  - by intros [= <- <-].
  - simpl. cbv [bind ret].
    destruct (Hcb x db) as [Hl Hb].
    destruct (callback x db) as [[y|e] db1]; simpl in Hl, Hb;
      [|by intros [= <- <-]].
    destruct (sequential items callback db1) as [[ys|e] db2] eqn:Hrest;
      apply IH in Hrest as [Hl2 Hb2]; intros [= <- <-]; split; congruence.
Qed.

Lemma scan_state indexDefinition filterSuffixes filterChain (limit : Z)
    (reverse : bool) (items : list (string * record)) (st : ScanState)
    (db : Database) :
  (scan indexDefinition filterSuffixes filterChain limit reverse items st db).2
  = db.
Proof.
  revert st. induction items as [|[key val] rest IH]; intros st; [done|].
  cbn [scan]. destruct (valuesRegexExec indexDefinition key) as [groups|];
    [|apply IH].
  unfold bind.
  pose proof (filterSubject_state indexDefinition filterSuffixes groups
                (default "" (groups !! "_filepath_")) val db) as Hdb.
  destruct (filterSubject _ _ _ _ _ _) as [[subject|e] db1]; simpl in Hdb;
    subst db1; [|done].
  destruct (makeFilter filterChain subject); cbn [negb]; [|apply IH].
  destruct (limitReached limit st); [done|apply IH].
Qed.

Lemma hydrateEdge_frame {N : Type} (hydrator : string → M N)
    (collection : string) (e : Edge) (d : Database) :
  (∀ p d, level (hydrator p d).2 = level d ∧ bridge (hydrator p d).2 = bridge d) →
  level (hydrateEdge hydrator collection e d).2 = level d
  ∧ bridge (hydrateEdge hydrator collection e d).2 = bridge d.
Proof.
  intros Hhyd. unfold hydrateEdge. cbv [try_catch bind ret throw].
  destruct (Hhyd (edge_path e) d) as [Hl Hb].
  destruct (hydrator (edge_path e) d) as [[node|err] d']; simpl in *;
    [done|].
  by destruct (instanceofError err && _).
Qed.

Lemma query_frame {N : Type} (queryOptions : QueryOptions)
    (hydrator : string → M N) (db db' : Database) (r : Res (QueryResult N)) :
  (∀ p d, level (hydrator p d).2 = level d ∧ bridge (hydrator p d).2 = bridge d) →
  query queryOptions hydrator db = (r, db') →
  level db' = level db ∧ bridge db' = bridge db.
Proof.
  intros Hhyd. unfold query. unfold bind at 1.
  destruct (getIndexDefinitions db) as [[table|e] db1] eqn:Hg;
    apply getIndexDefinitions_frame in Hg as (Hl & Hb & _);
    [|by intros [= <- <-]].
  destruct (table ≫= _) as [indexDefinitions|]; [|by intros [= <- <-]].
  unfold bind at 1, gets. unfold bind at 1.
  match goal with
  | |- context [scan ?a ?b ?c ?d ?e ?f ?g db1] =>
      pose proof (scan_state a b c d e f g db1) as Hscan;
      destruct (scan a b c d e f g db1) as [[st|e'] db2]
  end; simpl in Hscan; subst db2; [|by intros [= <- <-]].
  unfold bind at 1.
  destruct (sequential (edges st) _ db1) as [[hs|e'] db3] eqn:Hseq;
    (apply sequential_frame in Hseq as [Hl3 Hb3];
     [intros [= <- <-]; split; congruence|]);
    intros e d; by apply hydrateEdge_frame.
Qed.

(** X4.  Reading never writes: [get], [flush], [documentExists],
    [getIndexDefinitions] and [getLookup] leave the key-value store and
    the bridge as they were, and so does [query] when its hydrator
    does. *)
Theorem readers_write_nothing {N : Type} (filepath returnType : string)
    (queryOptions : QueryOptions) (hydrator : string → M N) (db : Database) :
  (∀ p d, level (hydrator p d).2 = level d ∧ bridge (hydrator p d).2 = bridge d) →
  (level (get filepath db).2 = level db
   ∧ bridge (get filepath db).2 = bridge db)
  ∧ (level (flush filepath db).2 = level db
     ∧ bridge (flush filepath db).2 = bridge db)
  ∧ (level (documentExists filepath db).2 = level db
     ∧ bridge (documentExists filepath db).2 = bridge db)
  ∧ (level (getIndexDefinitions db).2 = level db
     ∧ bridge (getIndexDefinitions db).2 = bridge db)
  ∧ (level (getLookup returnType db).2 = level db
     ∧ bridge (getLookup returnType db).2 = bridge db)
  ∧ (level (query queryOptions hydrator db).2 = level db
     ∧ bridge (query queryOptions hydrator db).2 = bridge db).
Proof.
  intros Hhyd. split_and!.
  - destruct (get filepath db) as [r db'] eqn:Hg.
    by apply get_frame in Hg as (? & ? & _).
  - destruct (get filepath db) as [r db'] eqn:Hg.
    by apply get_frame in Hg as (? & ? & _).
  - unfold flush. cbv [bind ret].
    destruct (get filepath db) as [[r|e] db1] eqn:Hg;
      apply get_frame in Hg as (Hl & Hb & _); [|done].
    destruct (stringifyFile filepath r db1) as [[sf|e] db2] eqn:Hs;
      apply stringifyFile_frame in Hs as (Hl2 & _ & _); simpl; congruence.
  - unfold flush. cbv [bind ret].
    destruct (get filepath db) as [[r|e] db1] eqn:Hg;
      apply get_frame in Hg as (Hl & Hb & _); [|done].
    destruct (stringifyFile filepath r db1) as [[sf|e] db2] eqn:Hs;
      apply stringifyFile_frame in Hs as (_ & Hb2 & _); simpl; congruence.
  - unfold documentExists. cbv [try_catch bind ret].
    destruct (get filepath db) as [[r|e] db1] eqn:Hg;
      by apply get_frame in Hg as (Hl & Hb & _).
  - unfold documentExists. cbv [try_catch bind ret].
    destruct (get filepath db) as [[r|e] db1] eqn:Hg;
      by apply get_frame in Hg as (Hl & Hb & _).
  - destruct (getIndexDefinitions db) as [r db'] eqn:Hg.
    by apply getIndexDefinitions_frame in Hg as (? & ? & _).
  - destruct (getIndexDefinitions db) as [r db'] eqn:Hg.
    by apply getIndexDefinitions_frame in Hg as (? & ? & _).
  - unfold getLookup. cbv [bind gets ret modify level_get].
    destruct (_lookup db); [done|].
    by destruct (level db !! _).
  - unfold getLookup. cbv [bind gets ret modify level_get].
    destruct (_lookup db); [done|].
    by destruct (level db !! _).
  - destruct (query queryOptions hydrator db) as [r db'] eqn:Hq.
    by apply query_frame in Hq as [? ?].
  - destruct (query queryOptions hydrator db) as [r db'] eqn:Hq.
    by apply query_frame in Hq as [? ?].
Qed.

End Readers.


(** ** The write path and the index invariant *)

Section WriteInvariant.
Context `{Externals}.

(** X5.  A successful [put] keeps the index invariant path by path: for
    every path whose index entries were those of its primary record
    before the write, they are so after it, whether it is the path
    written or another one (when the key codec reads a stored payload as
    it reads the payload that was written). *)
Theorem put_keeps_index_invariant (filepath : string) (d : payload)
    (c : string) (db0 db1 : Database)
    (table : gmap string (gmap string IndexDefinition))
    (defs : gmap string IndexDefinition) (q : string) :
  put filepath d (Some c) db0 = (Ok true, db1) →
  c ≠ "" →
  collectionIndexDefinitions db1 = Some table →
  table !! c = Some defs →
  has_separator (normalizePath filepath) = false →
  keysSurviveStorage defs →
  indexedExactly db0 c defs q →
  indexedExactly db1 c defs q
  ∧ (q ≠ normalizePath filepath →
     level db1 !! (rootSublevel, q) = level db0 !! (rootSublevel, q)).
Proof.
  intros Hput Hc Htable Hdefs Hsep Hkeys Hcons. split.
  - by apply (put_reindexes filepath d c db0 db1 table defs q).
  - intros Hq.
    destruct (put_level _ _ _ _ _ _ _ Hput Hc Htable Hdefs)
      as (stored & _ & ->).
    apply batch_other. rewrite !fmap_app, !elem_of_app.
    intros [Hin|[Hin|Hin]].
    + apply list_elem_of_fmap in Hin as (op & Hop & Hin).
      apply list_elem_of_fmap in Hin as ([sub k] & -> & Hin).
      destruct (record_payload <$> _) as [o|];
        [|by apply elem_of_nil in Hin].
      apply elem_of_indexTargets in Hin as (? & ? & _ & -> & _).
      simpl in Hop. unfold rootSublevel in Hop. congruence.
    + apply list_elem_of_fmap in Hin as (op & Hop & Hin).
      apply list_elem_of_fmap in Hin as ([sub k] & -> & Hin).
      apply elem_of_indexTargets in Hin as (? & ? & _ & -> & _).
      simpl in Hop. unfold rootSublevel in Hop. congruence.
    + apply list_elem_of_singleton in Hin. simpl in Hin. congruence.
Qed.


End WriteInvariant.

(** ** Existence of a document *)

Section Existence.
Context `{Externals}.

(** X7.  [documentExists] never throws: it answers [true] exactly when
    [get] returns a document, so [false] for a reserved system file and
    for a path that has no primary record. *)
Theorem documentExists_answers (fullpath : string) (db : Database) :
  ∃ b db',
    documentExists fullpath db = (Ok b, db')
    ∧ (b = true ↔ ∃ r, (get fullpath db).1 = Ok r)
    ∧ (fullpath ∈ SYSTEM_FILES → b = false)
    ∧ (level db !! (rootSublevel, normalizePath fullpath) = None → b = false).
Proof.
  unfold documentExists. cbv [try_catch bind ret].
  destruct (get fullpath db) as [[r|e] db1] eqn:Hget.
  - exists true, db1. split_and!; [done| |..].
    + split; [by eexists|done].
    + intros Hin. apply isSystemFile_true in Hin.
      unfold get in Hget. by rewrite Hin in Hget.
    + intros Hnone.
      destruct (get_missing fullpath db Hnone) as (e' & db' & Hmiss).
      rewrite Hmiss in Hget. discriminate Hget.
  - exists false, db1. split_and!; [done| |done..].
    split; [done|]. by intros [r [=]].
Qed.

End Existence.

(** ** A failure while the index definitions are built *)

Section PartialTable.
Context `{Externals}.



End PartialTable.

(** ** Runs of the further properties *)

Lemma scan_page_witness :
  ∃ st',
    scan None None [] 1 false twoItems initialScan emptyDb = (Ok st', emptyDb)
    ∧ edges st' =
        take (Z.to_nat 1) (omap (candidateEdge None None [] emptyDb) twoItems)
    ∧ hasNextPage st' =
        (negb false &&
         bool_decide (Z.to_nat 1 <
           List.length (omap (candidateEdge None None [] emptyDb) twoItems)))
    ∧ hasPreviousPage st' =
        (false &&
         bool_decide (Z.to_nat 1 <
           List.length (omap (candidateEdge None None [] emptyDb) twoItems))).
Proof.
  apply (scan_page None None [] 1 false twoItems emptyDb).
  - lia.
  - intros item Hitem. unfold twoItems in Hitem.
    apply elem_of_cons in Hitem as [->|Hitem];
      [by eexists; vm_compute|].
    apply elem_of_cons in Hitem as [->|Hitem];
      [by eexists; vm_compute|].
    by apply elem_of_nil in Hitem.
Defined.

Lemma query_page_witness :
  ∃ keys : list string,
    (result_edges firstPage).*2 = btoa <$> keys
    ∧ startCursor (pageInfo firstPage) = btoa (default "" (head keys))
    ∧ endCursor (pageInfo firstPage) = btoa (default "" (last keys))
    ∧ (queryLimit (q_first firstPost) (q_last firstPost) ≠ (-1)%Z →
       List.length (result_edges firstPage)
       ≤ Z.to_nat (queryLimit (q_first firstPost) (q_last firstPost)))
    ∧ (pi_hasNextPage (pageInfo firstPage) = true →
       truthy_number (q_last firstPost) = false)
    ∧ (pi_hasPreviousPage (pageInfo firstPage) = true →
       truthy_number (q_last firstPost) = true).
Proof.
  apply (query_page firstPost get dbTwo (query firstPost get dbTwo).2
           firstPage).
  - intros indexDefinition key groups Hexec ->. by vm_compute in Hexec.
  - apply run_eta. unfold firstPage. apply ok_eta. by vm_compute.
Defined.

Lemma readers_write_nothing_witness :
  (level (get pA dbTwo).2 = level dbTwo
   ∧ bridge (get pA dbTwo).2 = bridge dbTwo)
  ∧ (level (flush pA dbTwo).2 = level dbTwo
     ∧ bridge (flush pA dbTwo).2 = bridge dbTwo)
  ∧ (level (documentExists pA dbTwo).2 = level dbTwo
     ∧ bridge (documentExists pA dbTwo).2 = bridge dbTwo)
  ∧ (level (getIndexDefinitions dbTwo).2 = level dbTwo
     ∧ bridge (getIndexDefinitions dbTwo).2 = bridge dbTwo)
  ∧ (level (getLookup "DocumentConnection" dbTwo).2 = level dbTwo
     ∧ bridge (getLookup "DocumentConnection" dbTwo).2 = bridge dbTwo)
  ∧ (level (query firstPost (λ p, ret p) dbTwo).2 = level dbTwo
     ∧ bridge (query firstPost (λ p, ret p) dbTwo).2 = bridge dbTwo).
Proof.
  apply (readers_write_nothing (N := string) pA "DocumentConnection"
           firstPost (λ p, ret p) dbTwo).
  intros p d. split; reflexivity.
Defined.

(** The empty store holds no record and no index entry for the demo
    path; after the first write its entries are in step. *)
Lemma empty_store_in_step : indexedExactly emptyDb "posts" postsDefinitions pA.
Proof.
  intros sort def _ k. split.
  - intros [[x Hx] _]. cbv [emptyDb level] in Hx.
    apply lookup_singleton_Some in Hx as [Hkey _]. discriminate Hkey.
  - intros (r & Hr & _). cbv [emptyDb level] in Hr.
    apply lookup_singleton_Some in Hr as [Hkey _]. discriminate Hkey.
Qed.

Lemma posts_table_cached : collectionIndexDefinitions dbOld = Some postsTable.
Proof. unfold postsTable. apply some_eta. by vm_compute. Qed.

Lemma posts_definitions : postsTable !! "posts" = Some postsDefinitions.
Proof. unfold postsDefinitions. apply some_eta. by vm_compute. Qed.

Lemma first_write_in_step : indexedExactly dbOld "posts" postsDefinitions pA.
Proof.
  apply (put_reindexes pA dOld "posts" emptyDb dbOld postsTable
           postsDefinitions pA).
  - exact put_old_ok.
  - done.
  - exact posts_table_cached.
  - exact posts_definitions.
  - by vm_compute.
  - apply demo_keys_survive.
  - exact empty_store_in_step.
Qed.

Lemma put_keeps_index_invariant_witness :
  indexedExactly dbOld "posts" postsDefinitions pA
  ∧ (pA ≠ normalizePath pA →
     level dbOld !! (rootSublevel, pA) = level emptyDb !! (rootSublevel, pA)).
Proof.
  apply (put_keeps_index_invariant pA dOld "posts" emptyDb dbOld postsTable
           postsDefinitions pA).
  - exact put_old_ok.
  - done.
  - exact posts_table_cached.
  - exact posts_definitions.
  - by vm_compute.
  - apply demo_keys_survive.
  - exact empty_store_in_step.
Defined.



Lemma delete_normalized_witness :
  level (delete_ pA dbOld).2 !! (rootSublevel, pA) = None
  ∧ bridge (delete_ pA dbOld).2 !! pA = None
  ∧ ∀ sort def, postsDefinitions !! sort = Some def → ∀ k,
      is_Some (level (delete_ pA dbOld).2 !! ([col_name posts; sort], k)) →
      keyPath k ≠ pA.
Proof.
  apply (delete_normalized pA dbOld (collectionForPath pA dbOld).2
           (delete_ pA dbOld).2 posts postsTable postsDefinitions).
  - apply run_eta. by vm_compute.
  - by vm_compute.
  - apply run_eta. by vm_compute.
  - done.
  - vm_compute. reflexivity.
  - exact posts_definitions.
  - exact first_write_in_step.
Defined.
